(** * locale/import-symbols.py: the symbols dictionary and the CLDR import

    A shallow embedding of [src/locale/import-symbols.py] and the
    properties of its dictionary rendering, of the annotation extraction
    and of the two loops that populate the per-language directories. *)

From Stdlib Require Import Ascii String.
From stdpp Require Import base tactics option list numbers.

Set Default Proof Using "Type".

(** ** Python values *)

(** A Python [str] is a sequence of Unicode code points. *)
Abbreviation char := N (only parsing).
Abbreviation str := (list N) (only parsing).

(** The text of an ASCII literal of the source. *)
Fixpoint lit (s : string) : str :=
  match s with
  | EmptyString => []
  | String a s' => N_of_ascii a :: lit s'
  end.

Arguments lit : simpl never.

Definition TAB : char := 9%N.
Definition LF : char := 10%N.
Definition CR : char := 13%N.
Definition COLON : char := 58%N.
Definition SLASH : char := 47%N.

Definition str_eqb (a b : str) : bool := bool_decide (a = b).

(** [s.startswith(p)] *)
Fixpoint startswith (s p : str) : bool :=
  match p, s with
  | [], _ => true
  | _ :: _, [] => false
  | c :: p', c' :: s' => bool_decide (c' = c) && startswith s' p'
  end.

(** [s.endswith(p)] *)
Definition endswith (s p : str) : bool := startswith (rev s) (rev p).

(** [s.replace(c, "")] for a one-character [c] *)
Definition remove_char (c : char) (s : str) : str :=
  filter (λ x, x ≠ c) s.

(** [s[:-n]]: all but the last [n] characters, the empty string when
    [s] has no more than [n]. *)
Definition slice_to_minus (n : nat) (s : str) : str :=
  take (length s - n) s.

(** [s[n:]] *)
Definition slice_from (n : nat) (s : str) : str := drop n s.

(** [s.split(sep)] for a one-character separator. *)
Definition cons_head (c : char) (ls : list str) : list str :=
  match ls with
  | [] => [[c]]
  | l :: r => (c :: l) :: r
  end.

Fixpoint split (sep : char) (s : str) : list str :=
  match s with
  | [] => [[]]
  | c :: s' =>
      if bool_decide (c = sep) then [] :: split sep s'
      else cons_head c (split sep s')
  end.

(** [s.split("\r\n")] *)
Fixpoint split_crlf (s : str) : list str :=
  match s with
  | [] => [[]]
  | c :: s' =>
      match s' with
      | c' :: s'' =>
          if bool_decide (c = CR) && bool_decide (c' = LF)
          then [] :: split_crlf s''
          else cons_head c (split_crlf s')
      | [] => [[c]]
      end
  end.

(** Exceptions the script can raise, and the outcome of a call. *)
Inductive exn : Type :=
  | AssertionError
  | IndexError
  | KeyError
  | ValueError
  | AttributeError
  | UnicodeError
  | ParseError
  | OSError
  | OverflowError.

Inductive result (A : Type) : Type :=
  | Ok (a : A)
  | Raise (e : exn).
Arguments Ok {A} a.
Arguments Raise {A} e.

#[global] Instance exn_eq_dec : EqDecision exn.
Proof. solve_decision. Defined.

#[global] Instance result_ret : MRet result := λ A a, Ok a.
#[global] Instance result_bind : MBind result := λ A B k r,
  match r with
  | Ok a => k a
  | Raise e => Raise e
  end.

(** ** class SymbolsDictionary(OrderedDict) *)

(** The entries in insertion order, and the [symbolsQualifier]
    attribute ([None] by default). *)
Record SymbolsDictionary : Type := mkSymbolsDictionary {
  symbolsQualifier : option str;
  items : list (str * str)
}.

(** [SymbolsDictionary(symbolsQualifier)] *)
Definition SymbolsDictionary_init (symbolsQualifier : option str)
  : SymbolsDictionary :=
  {| symbolsQualifier := symbolsQualifier; items := [] |}.

(** [OrderedDict.__setitem__]: a key already present keeps its place and
    takes the new value, a new key goes to the end. *)
Fixpoint setitem_list (k v : str) (l : list (str * str))
  : list (str * str) :=
  match l with
  | [] => [(k, v)]
  | (k', v') :: l' =>
      if bool_decide (k' = k) then (k', v) :: l'
      else (k', v') :: setitem_list k v l'
  end.

Definition setitem (d : SymbolsDictionary) (k v : str)
  : SymbolsDictionary :=
  {| symbolsQualifier := symbolsQualifier d;
     items := setitem_list k v (items d) |}.

(** [d.get(k)] *)
Fixpoint getitem_list (k : str) (l : list (str * str)) : option str :=
  match l with
  | [] => None
  | (k', v') :: l' =>
      if bool_decide (k' = k) then Some v' else getitem_list k l'
  end.

Definition getitem (d : SymbolsDictionary) (k : str) : option str :=
  getitem_list k (items d).

Definition keys (d : SymbolsDictionary) : list str := (items d).*1.

(** [bool(d)]: a dictionary is true when it has an entry. *)
Definition dict_truthy (d : SymbolsDictionary) : bool :=
  match items d with
  | [] => false
  | _ :: _ => true
  end.

(** [if self.symbolsQualifier:] is the truth value of the attribute:
    [None] and the empty string are both false. *)
Definition qualifier_truthy (q : option str) : bool :=
  match q with
  | Some (_ :: _) => true
  | _ => false
  end.

Definition header : str := lit "symbols:" ++ [CR; LF].

(** [SymbolsDictionary.__str__] *)
Definition __str__ (self : SymbolsDictionary) : str :=
  fold_left
    (λ dicText '(pattern, description),
       if qualifier_truthy (symbolsQualifier self) then
         dicText ++
           (pattern ++ [TAB] ++ description ++ [TAB] ++ lit "none" ++ [TAB]
              ++ default [] (symbolsQualifier self) ++ [CR; LF])
       else
         dicText ++
           (pattern ++ [TAB] ++ description ++ [TAB] ++ lit "none"
              ++ [CR; LF]))
    (items self) header.

(** The lines of a rendered dictionary, as a reader of the file sees
    them: the text cut at every CRLF, without the empty piece after the
    last terminator. The first line is the header, the others are entry
    lines. *)
Definition rendered_lines (text : str) : list str :=
  let pieces := split_crlf text in
  take (length pieces - 1) pieces.

Definition entry_lines (text : str) : list str :=
  drop 1 (rendered_lines text).

(** The tab-separated fields of a line. *)
Definition fields (line : str) : list str := split TAB line.


(** A string without tab, carriage return or line feed. *)
Definition plain_char (c : char) : bool :=
  negb (bool_decide (c = TAB)) && negb (bool_decide (c = CR))
  && negb (bool_decide (c = LF)).

Definition plain (s : str) : bool := forallb plain_char s.

Definition plain_entries (d : SymbolsDictionary) : bool :=
  forallb (λ e : str * str, plain e.1 && plain e.2) (items d).

(** ** CLDR annotation files *)

(** An [<annotation>] element: its [type] and [cp] attributes and its
    text, each of which may be absent. *)
Record annotation : Type := mkAnnotation {
  attrib_type : option str;
  attrib_cp : option str;
  text : option str
}.

(** A directory entry of the CLDR tree: an XML document, given by its
    [annotation] elements in document order ([tree.iter("annotation")]),
    or something [ElementTree.parse] rejects. *)
Inductive file : Type :=
  | Xml (elements : list annotation)
  | NotXml.

(** The two source directories. [path.join(dir, name)] for one of them
    is the pair of the directory and the name. *)
Inductive cldr_dir : Type :=
  | annotationsDir
  | annotationsDerivedDir.

#[global] Instance cldr_dir_eq_dec : EqDecision cldr_dir.
Proof. solve_decision. Defined.

Definition path : Type := cldr_dir * str.

Record cldr : Type := mkCldr {
  annotations : list (str * file);
  annotationsDerived : list (str * file)
}.

Definition entries (w : cldr) (dir : cldr_dir) : list (str * file) :=
  match dir with
  | annotationsDir => annotations w
  | annotationsDerivedDir => annotationsDerived w
  end.

(** [os.listdir(dir)] *)
Definition os_listdir (w : cldr) (dir : cldr_dir) : list str :=
  (entries w dir).*1.

Fixpoint find_file (name : str) (l : list (str * file)) : option file :=
  match l with
  | [] => None
  | (n, f) :: l' => if bool_decide (n = name) then Some f else find_file name l'
  end.

(** [path.exists(path.join(dir, name))] *)
Definition source_exists (w : cldr) (p : path) : bool :=
  bool_decide (p.2 ∈ os_listdir w p.1).

(** [ElementTree.parse(source)] followed by [tree.iter("annotation")] *)
Definition ElementTree_parse (w : cldr) (source : path)
  : result (list annotation) :=
  match find_file source.2 (entries w source.1) with
  | Some (Xml elements) => Ok elements
  | Some NotXml => Raise ParseError
  | None => Raise OSError
  end.

(** A loop whose body may raise. *)
Fixpoint foldM {A B : Type} (f : A → B → result A) (l : list B) (a : A)
  : result A :=
  match l with
  | [] => Ok a
  | b :: l' => a' ← f a b; foldM f l' a'
  end.

(** The body of the inner loop of [createCLDRAnnotationsDict]. The right
    side of the assignment is evaluated before the subscript of its
    target. *)
Definition annotation_step (cldrDict : SymbolsDictionary)
    (element : annotation) : result SymbolsDictionary :=
  if bool_decide (attrib_type element = Some (lit "tts")) then
    match text element with
    | None => Raise AttributeError
    | Some t =>
        match attrib_cp element with
        | None => Raise KeyError
        | Some cp => Ok (setitem cldrDict cp (remove_char COLON t))
        end
    end
  else Ok cldrDict.

Definition source_step (w : cldr) (cldrDict : SymbolsDictionary)
    (source : path) : result SymbolsDictionary :=
  tree ← ElementTree_parse w source;
  foldM annotation_step tree cldrDict.

Definition createCLDRAnnotationsDict (w : cldr) (sources : list path)
  : result SymbolsDictionary :=
  cldrDict ← foldM (source_step w) sources (SymbolsDictionary_init None);
  if dict_truthy cldrDict then Ok cldrDict else Raise AssertionError.

(** List of languages which are non-standard for CLDR files *)
Definition CLDRExceptionsList : list (str * list str) :=
  [ (lit "sr", [lit "sr"; lit "sr_Latn"]);
    (lit "sr_BA", [lit "sr_Latn_BA"]);
    (lit "yue", [lit "yue"; lit "yue_Hans"]);
    (lit "zh_HK", [lit "zh_Hant_HK"]);
    (lit "zh_TW", [lit "zh_Hant"]) ].

Definition docHeader : str :=
  lit "# This file was automatically generated by make import-symbols"
    ++ [LF] ++ lit "# DO NOT MODIFY IT!"
    ++ [LF]
    ++ lit "# See locale/README.md to know how to import dictionaries"
    ++ [LF; LF].

(** ** The font variants of UnicodeData.txt *)

Section FontVariants.
(** Library functions the loop calls: [int(s, 16)] and
    [GLib.utf8_normalize(s, -1, GLib.NormalizeMode.ALL_COMPOSE)]. *)
Variable int16 : str → result N.
Variable utf8_normalize : str → result str.

(** [chr(n)]: a code point up to U+10FFFF; above it [ValueError], and
    [OverflowError] for a number that does not fit a C int. *)
Definition chr (n : N) : result str :=
  if bool_decide (n ≤ 1114111)%N then Ok [n]
  else if bool_decide (n < 2147483648)%N then Raise ValueError
  else Raise OverflowError.

(** [row[i]] *)
Definition index {A : Type} (row : list A) (i : nat) : result A :=
  match row !! i with
  | Some x => Ok x
  | None => Raise IndexError
  end.

(** The body of the loop over the records of the table. *)
Definition fontVariant_step (fontVariantsDict : SymbolsDictionary)
    (uCharacter : list str) : result SymbolsDictionary :=
  field5 ← index uCharacter 5;
  if startswith field5 (lit "<font>") then
    field0 ← index uCharacter 0;
    code ← int16 (lit "0x" ++ field0);
    fontVariant ← chr code;
    code' ← int16 (lit "0x" ++ slice_from 7 field5);
    pronouncedCharacter ← chr code';
    normalized ← utf8_normalize fontVariant;
    if negb (str_eqb pronouncedCharacter normalized) then
      Ok (setitem fontVariantsDict fontVariant pronouncedCharacter)
    else Ok fontVariantsDict
  else Ok fontVariantsDict.

Definition fontVariantsDict (uDataCSV : list (list str))
  : result SymbolsDictionary :=
  foldM fontVariant_step uDataCSV (SymbolsDictionary_init (Some (lit "literal"))).

(** The two characters of a record: the one of field 0 and the one
    after the tag of field 5. *)
Definition fontVariant_of (uCharacter : list str) : result str :=
  field0 ← index uCharacter 0;
  code ← int16 (lit "0x" ++ field0);
  chr code.

Definition pronounced_of (uCharacter : list str) : result str :=
  field5 ← index uCharacter 5;
  code ← int16 (lit "0x" ++ slice_from 7 field5);
  chr code.

Definition font_tagged (uCharacter : list str) : bool :=
  match uCharacter !! 5 with
  | Some field5 => startswith field5 (lit "<font>")
  | None => false
  end.
End FontVariants.

(** ** The output tree and the emoji step *)

(** The working directory, where the language directories are made: the
    names that are directories, and the regular files with their text,
    each under the path it is opened with. [os.mkdir], [path.exists] and
    [codecs.open(..., "w")] are used on one-component names and on
    [name/emojis.dic] only. *)
Record tree : Type := mkTree {
  dirs : list str;
  files : list (str * str)
}.

(** The calls that touch the outside, in the order they are made. *)
Inductive event : Type :=
  | Mkdir (name : str)
  | Extract (sources : list path)
  | Write (name : str).

Record state : Type := mkState {
  processedFiles : list str;
  cwd : tree;
  trace : list event
}.

(** A statement of the script: it changes the state and completes or
    raises; the state at the point of an exception is kept, as the files
    written so far are. *)
Definition M (A : Type) : Type := state → result A * state.

Definition ret {A : Type} (a : A) : M A := λ s, (Ok a, s).

Definition bind {A B : Type} (m : M A) (k : A → M B) : M B := λ s,
  match m s with
  | (Ok a, s') => k a s'
  | (Raise e, s') => (Raise e, s')
  end.

Declare Scope script_scope.
Delimit Scope script_scope with script.
Notation "x <- m ;; k" := (bind m (λ x, k))
  (at level 100, m at next level, right associativity) : script_scope.
Notation "m ;;; k" := (bind m (λ _, k))
  (at level 100, right associativity) : script_scope.
Open Scope script_scope.

Definition raise {A : Type} (e : exn) : M A := λ s, (Raise e, s).

Definition log (e : event) : M unit := λ s,
  (Ok (), {| processedFiles := processedFiles s; cwd := cwd s;
             trace := trace s ++ [e] |}).

(** [for x in l: body] *)
Fixpoint for_ {A : Type} (l : list A) (body : A → M unit) : M unit :=
  match l with
  | [] => ret ()
  | x :: l' => body x ;;; for_ l' body
  end.

(** A loop that also updates a local variable [a]. *)
Fixpoint for_acc {A B : Type} (l : list B) (a : A) (body : A → B → M A)
  : M A :=
  match l with
  | [] => ret a
  | x :: l' => a' <- body a x ;; for_acc l' a' body
  end.

(** [posixpath.join(a, b)] *)
Definition path_join (a b : str) : str :=
  if startswith b [SLASH] then b
  else if bool_decide (a = []) || endswith a [SLASH] then a ++ b
  else a ++ [SLASH] ++ b.

(** [path.isdir(p)] in the working directory: [.] and [..] are
    directories wherever the script runs, whatever the directory
    lists. *)
Definition tree_isdir (t : tree) (p : str) : bool :=
  bool_decide (p ∈ [lit "."; lit ".."]) || bool_decide (p ∈ dirs t).

Definition tree_exists (t : tree) (p : str) : bool :=
  tree_isdir t p || bool_decide (p ∈ (files t).*1).

(** [path.exists(p)] in the working directory *)
Definition path_exists (p : str) : M bool := λ s,
  (Ok (tree_exists (cwd s) p), s).

(** [os.mkdir(name)]: refused for the empty name and for a name that
    exists. *)
Definition os_mkdir (name : str) : M unit := λ s,
  if bool_decide (name = []) then (Raise OSError, s)
  else if tree_exists (cwd s) name then (Raise OSError, s)
  else
    (Ok (), {| processedFiles := processedFiles s;
               cwd := {| dirs := dirs (cwd s) ++ [name];
                         files := files (cwd s) |};
               trace := trace s ++ [Mkdir name] |}).

Fixpoint put_file (p content : str) (l : list (str * str))
  : list (str * str) :=
  match l with
  | [] => [(p, content)]
  | (p', c') :: l' =>
      if bool_decide (p' = p) then (p', content) :: l'
      else (p', c') :: put_file p content l'
  end.

(** [with codecs.open(path.join(dir, name), "w", ...) as f: f.write(a);
    f.write(b)], with [content] the text [a + b]: refused when [dir] is
    not a directory or the path is one. *)
Definition write_file (dir name content : str) : M unit := λ s,
  let p := path_join dir name in
  if negb (tree_isdir (cwd s) dir) then (Raise OSError, s)
  else if tree_isdir (cwd s) p then (Raise OSError, s)
  else
    (Ok (), {| processedFiles := processedFiles s;
               cwd := {| dirs := dirs (cwd s);
                         files := put_file p content (files (cwd s)) |};
               trace := trace s ++ [Write p] |}).

(** [processedFiles.append(name)] *)
Definition processedFiles_append (name : str) : M unit := λ s,
  (Ok (), {| processedFiles := processedFiles s ++ [name]; cwd := cwd s;
             trace := trace s |}).

Definition get_processedFiles : M (list str) := λ s,
  (Ok (processedFiles s), s).

(** [try: emojiDic = createCLDRAnnotationsDict(cldrSources)
     except AssertionError: continue]: [None] stands for the
    [continue]; any other exception goes on. *)
Definition try_createCLDRAnnotationsDict (w : cldr) (cldrSources : list path)
  : M (option SymbolsDictionary) :=
  log (Extract cldrSources) ;;;
  match createCLDRAnnotationsDict w cldrSources with
  | Ok emojiDic => ret (Some emojiDic)
  | Raise AssertionError => ret None
  | Raise e => raise e
  end.

(** [for CLDRFile in files:] of the exception loop: it fills the local
    list [cldrSources] (for each listed file the annotations, then the
    derived ones, when they exist) and records the file as processed. *)
Definition collect_sources (w : cldr) (files : list str) : M (list path) :=
  for_acc files []
    (λ cldrSources CLDRFile,
       let cldrSources :=
         if source_exists w (annotationsDir, CLDRFile ++ lit ".xml")
         then cldrSources ++ [(annotationsDir, CLDRFile ++ lit ".xml")]
         else cldrSources in
       let cldrSources :=
         if source_exists w (annotationsDerivedDir, CLDRFile ++ lit ".xml")
         then cldrSources ++ [(annotationsDerivedDir, CLDRFile ++ lit ".xml")]
         else cldrSources in
       processedFiles_append (CLDRFile ++ lit ".xml") ;;;
       ret cldrSources).

(** The body of [for lang,files in CLDRExceptionsList.items()] *)
Definition exception_body (w : cldr) (entry : str * list str) : M unit :=
  let '(lang, files) := entry in
  ex <- path_exists lang ;;
  (if negb ex then os_mkdir lang else ret ()) ;;;
  cldrSources <- collect_sources w files ;;
  r <- try_createCLDRAnnotationsDict w cldrSources ;;
  match r with
  | None => ret ()
  | Some emojiDic =>
      write_file lang (lit "emojis.dic") (docHeader ++ __str__ emojiDic)
  end.

(** The body of [for CLDRFile in os.listdir(annotationsDir)] *)
Definition scan_body (w : cldr) (CLDRFile : str) : M unit :=
  processed <- get_processedFiles ;;
  if bool_decide (CLDRFile ∈ processed) then ret ()
  else
    let CLDRLang := slice_to_minus 4 CLDRFile in
    ex <- path_exists CLDRLang ;;
    (if negb ex then os_mkdir CLDRLang else ret ()) ;;;
    let cldrSources :=
      [(annotationsDir, CLDRFile)]
        ++ (if source_exists w (annotationsDerivedDir, CLDRFile)
            then [(annotationsDerivedDir, CLDRFile)] else []) in
    r <- try_createCLDRAnnotationsDict w cldrSources ;;
    match r with
    | None => ret ()
    | Some emojiDic =>
        write_file CLDRLang (lit "emojis.dic")
          (docHeader ++ __str__ emojiDic) ;;;
        processedFiles_append CLDRFile
    end.

Definition exceptions_phase (w : cldr) : M unit :=
  for_ CLDRExceptionsList (exception_body w).

Definition generic_scan (w : cldr) : M unit :=
  for_ (os_listdir w annotationsDir) (scan_body w).

(** Lines 135 to 183: the emoji step, from the tree [t]. *)
Definition emoji_step (w : cldr) (t : tree) : result unit * state :=
  (exceptions_phase w ;;; generic_scan w)
    {| processedFiles :=
         [lit "root.xml"; lit "en_001.xml"; lit "sr_Cyrl.xml";
          lit "sr_Cyrl_BA.xml"];
       cwd := t; trace := [] |}.

(** The list [cldrSources] the exception loop builds for the listed
    files, and the names it records. *)
Definition exception_sources (w : cldr) (files : list str) : list path :=
  flat_map
    (λ CLDRFile,
       (if source_exists w (annotationsDir, CLDRFile ++ lit ".xml")
        then [(annotationsDir, CLDRFile ++ lit ".xml")] else [])
       ++
       (if source_exists w (annotationsDerivedDir, CLDRFile ++ lit ".xml")
        then [(annotationsDerivedDir, CLDRFile ++ lit ".xml")] else []))
    files.

Definition exception_names (files : list str) : list str :=
  (λ CLDRFile, CLDRFile ++ lit ".xml") <$> files.

(** ** Vocabulary of the statements *)

(** The tts-typed annotations of a source, as the pairs they insert. *)
Definition tts_pair (element : annotation) : option (str * str) :=
  if bool_decide (attrib_type element = Some (lit "tts")) then
    match attrib_cp element, text element with
    | Some cp, Some t => Some (cp, remove_char COLON t)
    | _, _ => None
    end
  else None.

Definition tts_pairs (elements : list annotation) : list (str * str) :=
  omap tts_pair elements.

(** No element of the source is tts-typed. *)
Definition no_tts (elements : list annotation) : bool :=
  forallb (λ element, negb (bool_decide (attrib_type element = Some (lit "tts"))))
    elements.

(** The language code the generic scan derives from a file name. *)
Definition CLDRLang_of (CLDRFile : str) : str := slice_to_minus 4 CLDRFile.

(** An event of the generic scan that is about the file [name]: the
    directory made, the sources read and the file written are all named
    after it. *)
Definition about (name : str) (e : event) : Prop :=
  match e with
  | Mkdir lang => lang = CLDRLang_of name
  | Extract sources => Forall (λ source : path, source.2 = name) sources
  | Write p => p = path_join (CLDRLang_of name) (lit "emojis.dic")
  end.

(** What a statement may do to the state: the list of processed files,
    the directories and the trace grow at their end, a file that exists
    still exists, and every new event satisfies [P]. *)
Definition extends (P : event → Prop) (st st' : state) : Prop :=
  processedFiles st `prefix_of` processedFiles st' ∧
  dirs (cwd st) `prefix_of` dirs (cwd st') ∧
  (files (cwd st)).*1 `prefix_of` (files (cwd st')).*1 ∧
  ∃ evs, trace st' = trace st ++ evs ∧ Forall P evs.

Definition preserves {A : Type} (R : state → state → Prop) (m : M A) : Prop :=
  ∀ st, R st (m st).2.

(** The names recorded before the loops. *)
Definition initial_processedFiles : list str :=
  [lit "root.xml"; lit "en_001.xml"; lit "sr_Cyrl.xml"; lit "sr_Cyrl_BA.xml"].

(** The state in which the emoji step starts. *)
Definition initial_state (t : tree) : state :=
  {| processedFiles := initial_processedFiles; cwd := t; trace := [] |}.

(** The text of one entry as [__str__] formats it, without the CRLF. *)
Definition entry_text (q : option str) (e : str * str) : str :=
  e.1 ++ [TAB] ++ e.2 ++ [TAB] ++ lit "none"
    ++ (if qualifier_truthy q then [TAB] ++ default [] q else []).

(** A qualifier that is set, to a string without tab or line break. *)
Definition plain_qualifier (q : option str) : bool :=
  match q with
  | None => true
  | Some q => plain q
  end.

(** Inserting pairs one after the other. *)
Definition insert_all (pairs : list (str * str)) (d : SymbolsDictionary)
  : SymbolsDictionary :=
  fold_left (λ d e, setitem d e.1 e.2) pairs d.

(** The value for [k] after inserting [pairs] into an empty dictionary:
    the one of the last pair with that key. *)
Definition pairs_get (k : str) (pairs : list (str * str)) : option str :=
  getitem (insert_all pairs (SymbolsDictionary_init None)) k.

(** Every tts-typed element has a [cp] attribute and a text. *)
Definition well_formed_element (element : annotation) : bool :=
  if bool_decide (attrib_type element = Some (lit "tts")) then
    bool_decide (is_Some (attrib_cp element))
    && bool_decide (is_Some (text element))
  else true.

Definition well_formed (elements : list annotation) : bool :=
  forallb well_formed_element elements.

(** The pairs a source inserts, when it parses and is well formed. *)
Definition source_pairs (w : cldr) (source : path)
  : option (list (str * str)) :=
  match ElementTree_parse w source with
  | Ok elements =>
      if well_formed elements then Some (tts_pairs elements) else None
  | Raise _ => None
  end.

(** The value a source alone gives to the key [k]. *)
Definition source_value (w : cldr) (source : path) (k : str) : option str :=
  match ElementTree_parse w source with
  | Ok elements => pairs_get k (tts_pairs elements)
  | Raise _ => None
  end.

(** ** Sample data *)

(** An entry whose description holds a tab, one whose description holds
    a line break, and a dictionary made with the empty qualifier. *)
Definition tabbed_dict : SymbolsDictionary :=
  {| symbolsQualifier := None;
     items := [(lit "a", lit "b" ++ [TAB] ++ lit "c")] |}.


Definition empty_qualifier_dict : SymbolsDictionary :=
  setitem (SymbolsDictionary_init (Some [])) (lit "a") (lit "b").

Definition literal_dict : SymbolsDictionary :=
  setitem (setitem (SymbolsDictionary_init (Some (lit "literal")))
             (lit "x") (lit "ex")) (lit "y") (lit "why").

(** Two annotation files with one tts annotation each, for the same
    code point (U+1F600), in the two files of the exception language
    [sr]. *)
Definition grinning : str := [128512%N].

Definition tts (cp description : str) : annotation :=
  {| attrib_type := Some (lit "tts"); attrib_cp := Some cp;
     text := Some description |}.

Definition sr_world : cldr :=
  {| annotations :=
       [ (lit "sr.xml", Xml [tts grinning (lit "grinning face")]);
         (lit "sr_Latn.xml", Xml [tts grinning (lit "grin")]) ];
     annotationsDerived := [] |}.

Definition sr_xml : path := (annotationsDir, lit "sr.xml").
Definition sr_Latn_xml : path := (annotationsDir, lit "sr_Latn.xml").

(** A tree with nothing in it. *)
Definition empty_tree : tree := {| dirs := []; files := [] |}.

(** A CLDR tree with one language that has no tts annotation, and one
    with a file whose name has three characters. *)
Definition lonely_world : cldr :=
  {| annotations := [(lit "xx.xml", Xml [])]; annotationsDerived := [] |}.

Definition short_world : cldr :=
  {| annotations := [(lit "abc", Xml [tts grinning (lit "grin")])];
     annotationsDerived := [] |}.

(** A CLDR tree with a file that is not named as an XML file, and a
    working directory where a regular file has the name of its language
    code. *)
Definition readme_world : cldr :=
  {| annotations := [(lit "README.md", Xml [tts grinning (lit "grin")])];
     annotationsDerived := [] |}.

Definition readm_tree : tree :=
  {| dirs := []; files := [(lit "READM", lit "text")] |}.

(** A record the font variants loop keeps: it is tagged, its two
    characters decode to [fontVariant] and [pronounced], and the
    normalization of [fontVariant] is not [pronounced]. *)
Definition kept (int16 : str → result N) (utf8_normalize : str → result str)
    (uCharacter : list str) (fontVariant pronounced : str) : Prop :=
  font_tagged uCharacter = true ∧
  fontVariant_of int16 uCharacter = Ok fontVariant ∧
  pronounced_of int16 uCharacter = Ok pronounced ∧
  ∃ normalized, utf8_normalize fontVariant = Ok normalized ∧
                pronounced ≠ normalized.

(** [int(s, 16)] on the strings [0x] followed by hexadecimal digits, and
    two stand-ins for the normalization: one that changes nothing and
    one that knows the double-struck C (U+2102). *)
Definition hex_digit (c : N) : option N :=
  if (48 <=? c)%N && (c <=? 57)%N then Some (c - 48)%N
  else if (65 <=? c)%N && (c <=? 70)%N then Some (c - 55)%N
  else if (97 <=? c)%N && (c <=? 102)%N then Some (c - 87)%N
  else None.

Definition hex_value (s : str) : result N :=
  match s with
  | 48%N :: 120%N :: d :: ds =>
      match foldM (λ n c, match hex_digit c with
                          | Some v => Ok (16 * n + v)%N
                          | None => Raise ValueError
                          end) (d :: ds) 0%N with
      | Ok n => Ok n
      | Raise e => Raise e
      end
  | _ => Raise ValueError
  end.

Definition no_normalize (s : str) : result str := Ok s.

Definition normalize_double_struck (s : str) : result str :=
  Ok ((λ c, if bool_decide (c = 8450%N) then 67%N else c) <$> s).

(** The record of U+2102 in UnicodeData.txt, and the one of U+0043. *)
Definition double_struck_C : list str :=
  [lit "2102"; lit "DOUBLE-STRUCK CAPITAL C"; lit "Lu"; lit "0"; lit "L";
   lit "<font> 0043"; []; []; []; lit "N"; lit "DOUBLE-STRUCK C"; []; []; [];
   []].

Definition capital_C : list str :=
  [lit "0043"; lit "LATIN CAPITAL LETTER C"; lit "Lu"; lit "0"; lit "L";
   []; []; []; []; lit "N"; []; []; []; lit "0063"; []].

(** ** The other steps of the script *)

(** An exception raised by a call that does not touch the state. *)
Definition lift {A : Type} (r : result A) : M A := λ s, (r, s).

(** Lines 110 to 113: the font variants are written below [base]. *)
Definition font_step (int16 : str → result N)
    (utf8_normalize : str → result str) (uDataCSV : list (list str))
  : M unit :=
  variants <- lift (fontVariantsDict int16 utf8_normalize uDataCSV) ;;
  write_file (lit "base") (lit "font-variants.dic")
    (docHeader ++ __str__ variants).

(** A name of the NVDA locale directory: something that is not a
    directory, or a directory, with what reading its [symbols.dic] as
    [utf_8_sig] gives when there is one. *)
Inductive nvda_entry : Type :=
  | NotDirectory
  | Directory (symbols_dic : option (result str)).

(** The body of [for NVDALang in os.listdir(NVDALocale)], for a name and
    what it is. *)
Definition nvda_body (item : str * nvda_entry) : M unit :=
  let '(NVDALang, entry) := item in
  match entry with
  | NotDirectory => ret ()
  | Directory None => ret ()
  | Directory (Some symbols_dic) =>
      ex <- path_exists NVDALang ;;
      (if negb ex then os_mkdir NVDALang else ret ()) ;;;
      NVDADic <- lift symbols_dic ;;
      write_file NVDALang (lit "symbols.dic") (docHeader ++ NVDADic)
  end.

(** The text of a file of the working directory. *)
Definition read_file (t : tree) (p : str) : option str :=
  getitem_list p (files t).

(** [shutil.copy(path.join(src_dir, src_name), path.join(dst_dir,
    dst_name))]: into the destination when it is a directory, onto it
    otherwise; refused when the source is no file, when the two are the
    same and when the destination cannot be opened. *)
Definition shutil_copy (src_dir src_name dst_dir dst_name : str) : M unit :=
  λ s,
  let src := path_join src_dir src_name in
  let dst := path_join dst_dir dst_name in
  match read_file (cwd s) src with
  | None => (Raise OSError, s)
  | Some content =>
      if tree_isdir (cwd s) dst then
        if bool_decide (path_join dst src_name = src) then (Raise OSError, s)
        else write_file dst src_name content s
      else
        if bool_decide (dst = src) then (Raise OSError, s)
        else write_file dst_dir dst_name content s
  end.

(** Lines 117 to 132. *)
Definition nvda_step (NVDALocale : list (str * nvda_entry)) : M unit :=
  for_ NVDALocale nvda_body ;;;
  shutil_copy (lit "en") (lit "symbols.dic") (lit "base") (lit "symbols.dic").

(** [processedFiles = [...]] *)
Definition set_processedFiles (names : list str) : M unit := λ s,
  (Ok (), {| processedFiles := names; cwd := cwd s; trace := trace s |}).

(** The script, from its first statement to its last. *)
Definition main (int16 : str → result N) (utf8_normalize : str → result str)
    (uDataCSV : list (list str)) (NVDALocale : list (str * nvda_entry))
    (w : cldr) : M unit :=
  font_step int16 utf8_normalize uDataCSV ;;;
  nvda_step NVDALocale ;;;
  set_processedFiles
    [lit "root.xml"; lit "en_001.xml"; lit "sr_Cyrl.xml"; lit "sr_Cyrl_BA.xml"] ;;;
  exceptions_phase w ;;;
  generic_scan w.

(** ** Vocabulary of the further properties *)

(** A statement that completes in a state related to the one it starts
    in, with a value that satisfies [Q]. *)
Definition hoare {A : Type} (R : state → state → Prop) (Q : A → Prop)
    (m : M A) : Prop :=
  ∀ st, R st (m st).2 ∧ ∀ a, (m st).1 = Ok a → Q a.

(** Every file is as it was, or holds a text [c] with [C p c]. *)
Definition touches (C : str → str → Prop) (st st' : state) : Prop :=
  ∀ p, read_file (cwd st') p = read_file (cwd st) p ∨
       ∃ c, read_file (cwd st') p = Some c ∧ C p c.

(** A dictionary of emojis as the emoji step writes it. *)
Definition emoji_file (p c : str) : Prop :=
  ∃ lang d, p = path_join lang (lit "emojis.dic") ∧
            c = docHeader ++ __str__ d ∧
            items d ≠ [] ∧ symbolsQualifier d = None.

(** A dictionary of symbols as the NVDA step copies it. *)
Definition nvda_file (NVDALocale : list (str * nvda_entry)) (p c : str)
  : Prop :=
  ∃ lang NVDADic, (lang, Directory (Some (Ok NVDADic))) ∈ NVDALocale ∧
                  p = path_join lang (lit "symbols.dic") ∧
                  c = docHeader ++ NVDADic.

(** The three names of the files the script writes. *)
Definition script_file (p c : str) : Prop :=
  ∃ dir name, p = path_join dir name ∧
              name ∈ [lit "font-variants.dic"; lit "symbols.dic";
                      lit "emojis.dic"].

(** The elements of a list in the order of their first occurrence. *)
Definition dedup_first (l : list str) : list str :=
  fold_left (λ acc x, if bool_decide (x ∈ acc) then acc else acc ++ [x]) l [].

(** A CLDR tree without the elements that are not tts-typed. *)
Definition is_tts (element : annotation) : bool :=
  bool_decide (attrib_type element = Some (lit "tts")).

Definition strip_file (f : file) : file :=
  match f with
  | Xml elements => Xml (List.filter is_tts elements)
  | NotXml => NotXml
  end.

Definition strip_world (w : cldr) : cldr :=
  {| annotations := prod_map id strip_file <$> annotations w;
     annotationsDerived := prod_map id strip_file <$> annotationsDerived w |}.

(** The sources the generic scan reads for a file. *)
Definition scan_sources (w : cldr) (CLDRFile : str) : list path :=
  [(annotationsDir, CLDRFile)]
    ++ (if source_exists w (annotationsDerivedDir, CLDRFile)
        then [(annotationsDerivedDir, CLDRFile)] else []).

(** The state in which the script starts. *)
Definition start (t : tree) : state :=
  {| processedFiles := []; cwd := t; trace := [] |}.

(** The files recorded since [st] have their dictionary in [st2], and
    no file has gone. *)
Definition recorded_written (st st2 : state) : Prop :=
  (files (cwd st)).*1 `prefix_of` (files (cwd st2)).*1 ∧
  ∀ f, f ∈ processedFiles st2 →
       f ∈ processedFiles st ∨
       path_join (CLDRLang_of f) (lit "emojis.dic") ∈ (files (cwd st2)).*1.

(** The directories made since [st] are all named by [D]. *)
Definition makes_only (D : str → Prop) (st st2 : state) : Prop :=
  ∀ name, name ∈ dirs (cwd st2) → name ∈ dirs (cwd st) ∨ D name.

(** A CLDR tree with a language that has derived annotations. *)
Definition derived_world : cldr :=
  {| annotations := [(lit "fr.xml", Xml [tts grinning (lit "visage")])];
     annotationsDerived := [(lit "fr.xml", Xml [tts grinning (lit "sourire")])] |}.

(** Reading an entry back from a line of a rendered dictionary: the
    first two fields. *)
Definition parse_entry (line : str) : option (str * str) :=
  match fields line with
  | pattern :: description :: _ => Some (pattern, description)
  | _ => None
  end.

(** ** Further sample data *)

(** A CLDR tree whose one file is not XML. *)
Definition bad_world : cldr :=
  {| annotations := [(lit "xx.xml", NotXml)]; annotationsDerived := [] |}.

(** An NVDA locale directory with a dictionary for [en], a directory
    without dictionary and a file; and a working directory with [base]. *)
Definition nvda_sample : list (str * nvda_entry) :=
  [ (lit "en", Directory (Some (Ok (lit "symbols:" ++ [CR; LF]))));
    (lit "fr", Directory None);
    (lit "README", NotDirectory) ].

Definition base_tree : tree := {| dirs := [lit "base"]; files := [] |}.

(** * Properties *)

(** ** The primitives on small inputs *)

Example split_example :
  split TAB (lit "a" ++ [TAB; TAB] ++ lit "b") = [lit "a"; []; lit "b"].
Proof. vm_compute. reflexivity. Qed.

Example split_crlf_example :
  split_crlf (lit "a" ++ [CR; LF] ++ lit "b" ++ [CR; CR; LF])
  = [lit "a"; lit "b" ++ [CR]; []].
Proof. vm_compute. reflexivity. Qed.

Example slice_example :
  slice_to_minus 4 (lit "en_GB.xml") = lit "en_GB" ∧
  slice_to_minus 4 (lit "abc") = [] ∧
  slice_from 7 (lit "<font> 0043") = lit "0043".
Proof. repeat split; vm_compute; reflexivity. Qed.

Example remove_char_example :
  remove_char COLON (lit "flag: France") = lit "flag France".
Proof. vm_compute. reflexivity. Qed.

Example path_join_example :
  path_join (lit "sr") (lit "emojis.dic") = lit "sr/emojis.dic" ∧
  path_join [] (lit "emojis.dic") = lit "emojis.dic".
Proof. repeat split; vm_compute; reflexivity. Qed.

Example render_example :
  __str__ literal_dict =
  lit "symbols:" ++ [CR; LF]
    ++ lit "x" ++ [TAB] ++ lit "ex" ++ [TAB] ++ lit "none" ++ [TAB]
    ++ lit "literal" ++ [CR; LF]
    ++ lit "y" ++ [TAB] ++ lit "why" ++ [TAB] ++ lit "none" ++ [TAB]
    ++ lit "literal" ++ [CR; LF].
Proof. vm_compute. reflexivity. Qed.

Example extraction_example :
  createCLDRAnnotationsDict sr_world [sr_xml; sr_Latn_xml] =
  Ok {| symbolsQualifier := None; items := [(grinning, lit "grin")] |}.
Proof. vm_compute. reflexivity. Qed.

Example hex_value_example : hex_value (lit "0x2102") = Ok 8450%N.
Proof. vm_compute. reflexivity. Qed.

(** ** Splitting *)

Section Splitting.
Implicit Types (s t : str) (c : char).

Lemma split_no_sep sep s : sep ∉ s → split sep s = [s].
Proof.
  induction s as [|c s IH]; intros Hs; [done|].
  apply not_elem_of_cons in Hs as [Hc Hs]. simpl.
  rewrite bool_decide_eq_false_2 by congruence.
  by rewrite IH.
Qed.

Lemma split_app sep s t :
  sep ∉ s → split sep (s ++ sep :: t) = s :: split sep t.
Proof.
  induction s as [|c s IH]; intros Hs; simpl.
  - by rewrite bool_decide_eq_true_2.
  - apply not_elem_of_cons in Hs as [Hc Hs].
    rewrite bool_decide_eq_false_2 by congruence.
    by rewrite IH.
Qed.



Lemma plain_no_tab s : plain s = true → TAB ∉ s.
Proof.
  unfold plain. rewrite forallb_forall. intros H Hin.
  apply list_elem_of_In, H in Hin. by vm_compute in Hin.
Qed.

Lemma plain_no_cr s : plain s = true → CR ∉ s.
Proof.
  unfold plain. rewrite forallb_forall. intros H Hin.
  apply list_elem_of_In, H in Hin. by vm_compute in Hin.
Qed.

Lemma split_crlf_cons c c' s :
  split_crlf (c :: c' :: s) =
  if bool_decide (c = CR) && bool_decide (c' = LF) then [] :: split_crlf s
  else cons_head c (split_crlf (c' :: s)).
Proof. reflexivity. Qed.

Lemma split_crlf_app s t :
  CR ∉ s → split_crlf (s ++ CR :: LF :: t) = s :: split_crlf t.
Proof.
  induction s as [|c s IH]; intros Hs; [done|].
  apply not_elem_of_cons in Hs as [Hc Hs].
  specialize (IH Hs).
  change ((c :: s) ++ CR :: LF :: t) with (c :: (s ++ CR :: LF :: t)).
  destruct (s ++ CR :: LF :: t) as [|c' r] eqn:E.
  { by destruct s. }
  rewrite split_crlf_cons.
  rewrite (bool_decide_eq_false_2 (c = CR)) by congruence.
  cbn [andb]. by rewrite IH.
Qed.

Lemma split_crlf_lines (ls : list str) :
  Forall (λ l, CR ∉ l) ls →
  split_crlf (concat ((λ l, l ++ [CR; LF]) <$> ls)) = ls ++ [[]].
Proof.
  induction 1 as [|l ls Hl _ IH]; [done|].
  cbn [fmap list_fmap concat]. rewrite <- app_assoc.
  change ([CR; LF] ++ ?r) with (CR :: LF :: r).
  by rewrite split_crlf_app, IH.
Qed.
End Splitting.

(** ** The dictionary *)

Section Dictionary.
Implicit Types (d : SymbolsDictionary) (k v : str) (l : list (str * str)).

Lemma setitem_list_fresh k v l :
  k ∉ l.*1 → setitem_list k v l = l ++ [(k, v)].
Proof.
  induction l as [|[k' v'] l IH]; intros Hk; [done|].
  cbn in Hk. apply not_elem_of_cons in Hk as [Hne Hk].
  cbn [setitem_list]. rewrite bool_decide_eq_false_2 by congruence.
  by rewrite IH.
Qed.

Lemma setitem_list_present k v v0 l r :
  k ∉ l.*1 → setitem_list k v (l ++ (k, v0) :: r) = l ++ (k, v) :: r.
Proof.
  induction l as [|[k' v'] l IH]; intros Hk; cbn [setitem_list app].
  - by rewrite bool_decide_eq_true_2.
  - cbn in Hk. apply not_elem_of_cons in Hk as [Hne Hk].
    rewrite bool_decide_eq_false_2 by congruence.
    by rewrite IH.
Qed.

Lemma setitem_list_keys k v l :
  k ∈ l.*1 → (setitem_list k v l).*1 = l.*1.
Proof.
  induction l as [|[k' v'] l IH]; intros Hk; [by apply elem_of_nil in Hk|].
  cbn [setitem_list]. case_bool_decide; [done|].
  cbn in Hk. apply elem_of_cons in Hk as [->|Hk]; [done|].
  cbn. by rewrite IH.
Qed.

Lemma getitem_setitem_list k v l :
  getitem_list k (setitem_list k v l) = Some v.
Proof.
  induction l as [|[k' v'] l IH]; cbn.
  - by rewrite bool_decide_eq_true_2.
  - case_bool_decide as E; cbn; rewrite ?E.
    + by rewrite bool_decide_eq_true_2.
    + by rewrite bool_decide_eq_false_2.
Qed.

Lemma getitem_setitem_list_ne k k' v l :
  k' ≠ k → getitem_list k' (setitem_list k v l) = getitem_list k' l.
Proof.
  intros Hne. induction l as [|[k0 v0] l IH]; cbn.
  - by rewrite bool_decide_eq_false_2.
  - case_bool_decide as E; cbn.
    + subst k0. by rewrite !bool_decide_eq_false_2 by congruence.
    + by rewrite IH.
Qed.

Lemma getitem_list_Some k v l : getitem_list k l = Some v → (k, v) ∈ l.
Proof.
  induction l as [|[k0 v0] l IH]; [done|]. cbn.
  case_bool_decide; intros Hv.
  - injection Hv as <-. subst. apply list_elem_of_here.
  - apply list_elem_of_further; auto.
Qed.

Lemma setitem_list_nonempty k v l : setitem_list k v l ≠ [].
Proof. destruct l as [|[k' v'] l]; cbn; [done|]. by case_bool_decide. Qed.

(** [__str__] is the header followed by the entries, as they are. *)
Lemma render_unfold d :
  __str__ d =
  header ++ concat ((λ e, entry_text (symbolsQualifier d) e ++ [CR; LF])
                      <$> items d).
Proof.
  unfold __str__. generalize header.
  induction (items d) as [|[p v] l IH]; intros acc; cbn [fold_left].
  - cbn. by rewrite app_nil_r.
  - rewrite IH. cbn [fmap list_fmap concat].
    rewrite (app_assoc acc (entry_text (symbolsQualifier d) (p, v) ++ [CR; LF])).
    f_equal. unfold entry_text. cbn [fst snd].
    destruct (qualifier_truthy _); by rewrite <- ?app_assoc.
Qed.

Lemma entry_text_no_cr q e :
  plain e.1 = true → plain e.2 = true → plain_qualifier q = true →
  CR ∉ entry_text q e.
Proof.
  intros H1%plain_no_cr H2%plain_no_cr Hq. unfold entry_text.
  assert (CR ∉ [TAB]) as Htab by by apply (bool_decide_unpack _).
  assert (CR ∉ lit "none") as Hnone by by apply (bool_decide_unpack _).
  rewrite !not_elem_of_app. repeat split; try done.
  destruct q as [[|c q]|]; cbn [qualifier_truthy default plain_qualifier] in *;
    rewrite ?not_elem_of_app; try split; try done; try apply not_elem_of_nil.
  by apply plain_no_cr.
Qed.

Lemma rendered_lines_render d :
  plain_entries d = true → plain_qualifier (symbolsQualifier d) = true →
  rendered_lines (__str__ d) =
  lit "symbols:" :: (entry_text (symbolsQualifier d) <$> items d).
Proof.
  intros Hd Hq. unfold rendered_lines.
  assert (__str__ d =
          concat ((λ x : str, x ++ [CR; LF]) <$>
                    (lit "symbols:" :: (entry_text (symbolsQualifier d) <$> items d))))
    as ->.
  { rewrite render_unfold. cbn [fmap list_fmap concat].
    f_equal. by rewrite <- list_fmap_compose. }
  rewrite split_crlf_lines.
  - rewrite length_app. change (length [[]]) with 1.
    by rewrite Nat.add_sub, take_app_length.
  - constructor; [by apply plain_no_cr|].
    apply Forall_fmap, Forall_forall. intros e He.
    unfold plain_entries in Hd. rewrite forallb_forall in Hd.
    apply Hd, andb_prop in He as [??]. by apply entry_text_no_cr.
Qed.

Lemma rendered_lines_entries d :
  plain_entries d = true → plain_qualifier (symbolsQualifier d) = true →
  entry_lines (__str__ d) = entry_text (symbolsQualifier d) <$> items d.
Proof.
  intros Hd Hq. unfold entry_lines. by rewrite rendered_lines_render.
Qed.

Lemma fields_entry_text_3 q p v :
  plain p = true → plain v = true → qualifier_truthy q = false →
  fields (entry_text q (p, v)) = [p; v; lit "none"].
Proof.
  intros Hp Hv Hq. unfold fields, entry_text. rewrite Hq, app_nil_r.
  cbn [fst snd app].
  rewrite (split_app TAB p) by by apply plain_no_tab.
  rewrite (split_app TAB v) by by apply plain_no_tab.
  by rewrite split_no_sep by by apply plain_no_tab.
Qed.

Lemma fields_entry_text_4 Q p v :
  plain p = true → plain v = true → plain Q = true → Q ≠ [] →
  fields (entry_text (Some Q) (p, v)) = [p; v; lit "none"; Q].
Proof.
  intros Hp Hv HQ Hne. unfold fields, entry_text.
  destruct Q as [|c Q]; [done|]. cbn [qualifier_truthy default fst snd].
  cbn [app].
  rewrite (split_app TAB p) by by apply plain_no_tab.
  rewrite (split_app TAB v) by by apply plain_no_tab.
  rewrite (split_app TAB (lit "none")) by by apply plain_no_tab.
  by rewrite split_no_sep by by apply plain_no_tab.
Qed.

End Dictionary.

(** ** Rendering *)

(** C1, as amended. An empty dictionary renders to the header line
    alone. For a dictionary whose patterns, descriptions and qualifier
    hold no tab, carriage return or line feed, the rendered text is its
    lines each terminated by CRLF, the first line is [symbols:] and the
    others are one per entry in insertion order; without a qualifier
    ([None] or the empty string) an entry line has exactly the three
    fields pattern, description, [none], and with a non-empty qualifier
    [Q] exactly the four fields pattern, description, [none], [Q]. *)
Theorem render_format (d : SymbolsDictionary) :
  (items d = [] → __str__ d = header) ∧
  (plain_entries d = true → plain_qualifier (symbolsQualifier d) = true →
   __str__ d =
     concat ((λ line : str, line ++ [CR; LF]) <$> rendered_lines (__str__ d)) ∧
   rendered_lines (__str__ d) = lit "symbols:" :: entry_lines (__str__ d) ∧
   (symbolsQualifier d = None ∨ symbolsQualifier d = Some [] →
    Forall2 (λ line e, fields line = [e.1; e.2; lit "none"])
      (entry_lines (__str__ d)) (items d)) ∧
   (∀ Q, symbolsQualifier d = Some Q → Q ≠ [] →
    Forall2 (λ line e, fields line = [e.1; e.2; lit "none"; Q])
      (entry_lines (__str__ d)) (items d))).
Proof.
  split.
  { intros Hd. unfold __str__. by rewrite Hd. }
  intros Hd Hq.
  pose proof (rendered_lines_render d Hd Hq) as Hlines.
  assert (entry_lines (__str__ d) = entry_text (symbolsQualifier d) <$> items d)
    as Hentries by (unfold entry_lines; by rewrite Hlines).
  assert (∀ e, In e (items d) → plain e.1 = true ∧ plain e.2 = true) as Hplain.
  { intros e He. unfold plain_entries in Hd. rewrite forallb_forall in Hd.
    by apply Hd, andb_prop in He. }
  repeat split.
  - rewrite Hlines, render_unfold. cbn [fmap list_fmap concat].
    f_equal. by rewrite <- list_fmap_compose.
  - by rewrite Hlines, Hentries.
  - intros Hnone. rewrite Hentries. apply Forall2_fmap_l, Forall_Forall2_diag.
    apply Forall_forall. intros [p v] [Hp Hv]%Hplain.
    apply fields_entry_text_3; [done..|]. by destruct Hnone as [-> | ->].
  - intros Q HQ Hne. rewrite Hentries. apply Forall2_fmap_l, Forall_Forall2_diag.
    apply Forall_forall. intros [p v] [Hp Hv]%Hplain. rewrite HQ.
    apply fields_entry_text_4; [done..| |done]. by rewrite HQ in Hq.
Qed.

Lemma render_format_witness :
  plain_entries literal_dict = true ∧
  rendered_lines (__str__ literal_dict) =
    lit "symbols:" :: entry_lines (__str__ literal_dict) ∧
  Forall2 (λ line e, fields line = [e.1; e.2; lit "none"; lit "literal"])
    (entry_lines (__str__ literal_dict)) (items literal_dict).
Proof.
  split; [reflexivity|].
  destruct (render_format literal_dict) as [_ H].
  destruct (H eq_refl eq_refl) as (_ & H1 & _ & H4).
  split; [exact H1|]. apply (H4 (lit "literal")); [reflexivity|discriminate].
Defined.

(** The claim C1 as it is written fails on an entry that holds a tab,
    and on a dictionary made with the empty string as qualifier. *)
Lemma render_fields_counterexample :
  symbolsQualifier tabbed_dict = None ∧
  ¬ Forall (λ line, length (fields line) = 3 ∧ fields line !! 2 = Some (lit "none"))
      (entry_lines (__str__ tabbed_dict)) ∧
  symbolsQualifier empty_qualifier_dict = Some [] ∧
  ¬ Forall (λ line, length (fields line) = 4 ∧ fields line !! 3 = Some [])
      (entry_lines (__str__ empty_qualifier_dict)).
Proof.
  split; [reflexivity|]. split.
  { intros H. apply Forall_cons_1 in H as [[H _] _]. vm_compute in H. discriminate. }
  split; [reflexivity|].
  intros H. apply Forall_cons_1 in H as [[H _] _]. vm_compute in H. discriminate.
Qed.



(** ** Insertion order *)

(** C5. Assigning a key that a dictionary holds leaves the keys in the
    order they had and gives the key the new value. So in any dictionary
    that holds none of the distinct keys [a], [b] and [c], inserting
    them in this order and then assigning [a] again gives [a] the new
    value in the place it had: the entries and the rendered text end
    with [a], [b], [c] in that order. *)
Theorem setitem_overwrite_keeps_position (d : SymbolsDictionary) :
  (∀ k v, k ∈ keys d →
          keys (setitem d k v) = keys d ∧ getitem (setitem d k v) k = Some v) ∧
  (∀ a b c va vb vc va' : str,
     a ∉ keys d → b ∉ keys d → c ∉ keys d → a ≠ b → a ≠ c → b ≠ c →
     let d' := setitem (setitem (setitem (setitem d a va) b vb) c vc) a va' in
     items d' = items d ++ [(a, va'); (b, vb); (c, vc)] ∧
     getitem d' a = Some va' ∧
     __str__ d' =
       __str__ d
         ++ entry_text (symbolsQualifier d) (a, va') ++ [CR; LF]
         ++ entry_text (symbolsQualifier d) (b, vb) ++ [CR; LF]
         ++ entry_text (symbolsQualifier d) (c, vc) ++ [CR; LF]).
Proof.
  split.
  { intros k v Hk. unfold keys, getitem, setitem in *. cbn [items].
    split; [by apply setitem_list_keys|apply getitem_setitem_list]. }
  intros a b c va vb vc va' Ha Hb Hc Hab Hac Hbc d'. unfold keys in *.
  assert (items d' = items d ++ [(a, va'); (b, vb); (c, vc)]) as Hitems.
  { unfold d', setitem. cbn [items].
    rewrite (setitem_list_fresh a va) by done.
    rewrite (setitem_list_fresh b vb).
    2:{ rewrite fmap_app, not_elem_of_app. split; [done|].
        cbn. rewrite list_elem_of_singleton. congruence. }
    rewrite (setitem_list_fresh c vc).
    2:{ rewrite !fmap_app, !not_elem_of_app. repeat split; [done|..];
        cbn; rewrite list_elem_of_singleton; congruence. }
    rewrite <- !app_assoc. cbn [app].
    by rewrite (setitem_list_present a va' va). }
  split; [done|]. split.
  { unfold d', getitem, setitem. cbn [items]. apply getitem_setitem_list. }
  rewrite !render_unfold, Hitems. cbn [d' setitem symbolsQualifier].
  rewrite fmap_app, concat_app. cbn [fmap list_fmap concat].
  by rewrite app_nil_r, <- !app_assoc.
Qed.

Lemma setitem_overwrite_keeps_position_witness :
  let d := setitem (setitem (setitem (setitem (SymbolsDictionary_init None)
             (lit "a") (lit "1")) (lit "b") (lit "2")) (lit "c") (lit "3"))
             (lit "a") (lit "4") in
  items d = [(lit "a", lit "4"); (lit "b", lit "2"); (lit "c", lit "3")] ∧
  getitem d (lit "a") = Some (lit "4").
Proof.
  intros d.
  assert (∀ x : str, x ∉ keys (SymbolsDictionary_init None)) as Hfresh
    by (intros x; apply not_elem_of_nil).
  destruct (proj2 (setitem_overwrite_keeps_position (SymbolsDictionary_init None))
              (lit "a") (lit "b") (lit "c")
              (lit "1") (lit "2") (lit "3") (lit "4")
              (Hfresh _) (Hfresh _) (Hfresh _)) as (H1 & H2 & _);
    [discriminate..|].
  split; [exact H1|exact H2].
Defined.

(** ** Extraction of the annotations *)

Section Extraction.
Implicit Types (d : SymbolsDictionary) (k v : str)
  (els : list annotation) (ps : list (str * str)).

Lemma result_bind_Ok {A B : Type} (r : result A) (f : A → result B) b :
  r ≫= f = Ok b ↔ ∃ a, r = Ok a ∧ f a = Ok b.
Proof.
  destruct r as [a|e]; cbn.
  - split; [eauto|]. by intros (? & [= <-] & ?).
  - split; [done|]. by intros (? & ? & _).
Qed.

Lemma insert_all_app ps1 ps2 d :
  insert_all (ps1 ++ ps2) d = insert_all ps2 (insert_all ps1 d).
Proof. apply fold_left_app. Qed.

(** The last pair with the key decides. *)
Lemma getitem_insert_all ps d k :
  getitem (insert_all ps d) k =
  match pairs_get k ps with
  | Some v => Some v
  | None => getitem d k
  end.
Proof.
  unfold pairs_get.
  induction ps as [|[k' v'] ps IH] using rev_ind.
  { cbn. unfold getitem. cbn. by destruct (getitem_list k (items d)). }
  rewrite !insert_all_app. cbn [insert_all fold_left fst snd].
  unfold getitem, setitem in *. cbn [items] in *.
  destruct (decide (k = k')) as [->|Hne].
  - by rewrite !getitem_setitem_list.
  - by rewrite !getitem_setitem_list_ne.
Qed.

Lemma pairs_get_app ps1 ps2 k :
  pairs_get k (ps1 ++ ps2) =
  match pairs_get k ps2 with
  | Some v => Some v
  | None => pairs_get k ps1
  end.
Proof.
  unfold pairs_get at 1. rewrite insert_all_app.
  by rewrite getitem_insert_all.
Qed.

Lemma insert_all_items_nil ps d :
  items (insert_all ps d) = [] ↔ ps = [] ∧ items d = [].
Proof.
  induction ps as [|[k' v'] ps IH] using rev_ind.
  { cbn. split; [done|]. by intros [_ ?]. }
  rewrite insert_all_app. cbn [insert_all fold_left fst snd setitem items].
  split.
  - intros H. by apply setitem_list_nonempty in H.
  - intros [H _]. by destruct ps.
Qed.

Lemma annotation_step_Ok d el :
  well_formed_element el = true →
  annotation_step d el =
  Ok (match tts_pair el with Some e => setitem d e.1 e.2 | None => d end).
Proof.
  unfold well_formed_element, annotation_step, tts_pair.
  case_bool_decide; [|done].
  intros [[cp ->]%bool_decide_eq_true_1 [t ->]%bool_decide_eq_true_1]%andb_prop.
  done.
Qed.

Lemma annotation_step_well_formed d el d' :
  annotation_step d el = Ok d' → well_formed_element el = true.
Proof.
  unfold well_formed_element, annotation_step.
  case_bool_decide; [|done].
  by destruct (text el), (attrib_cp el).
Qed.

(** The inner loop inserts the tts pairs, or raises on an element
    that lacks its text or its [cp]. *)
Lemma annotation_fold_Ok els d :
  well_formed els = true →
  foldM annotation_step els d = Ok (insert_all (tts_pairs els) d).
Proof.
  revert d. induction els as [|el els IH]; intros d Hwf; [done|].
  apply andb_prop in Hwf as [Hel Hwf].
  cbn [foldM]. rewrite annotation_step_Ok by done.
  unfold tts_pairs. cbn [omap list_omap]. fold (tts_pairs els).
  destruct (tts_pair el) as [e|]; cbn; by rewrite IH.
Qed.

Lemma annotation_fold_well_formed els d d' :
  foldM annotation_step els d = Ok d' → well_formed els = true.
Proof.
  revert d. induction els as [|el els IH]; intros d Hd; [done|].
  cbn [foldM] in Hd. apply result_bind_Ok in Hd as (d1 & Hstep & Hd).
  apply andb_true_intro. split; [|by eapply IH].
  by eapply annotation_step_well_formed.
Qed.

Lemma no_tts_pairs els :
  no_tts els = true → well_formed els = true ∧ tts_pairs els = [].
Proof.
  induction els as [|el els IH]; [done|].
  intros [Hel [Hwf Hps]%IH]%andb_prop.
  unfold well_formed, tts_pairs in *. cbn [forallb omap list_omap].
  unfold well_formed_element at 1, tts_pair at 1.
  destruct (bool_decide (attrib_type el = Some (lit "tts"))); [done|].
  by rewrite Hwf, Hps.
Qed.

Context (w : cldr).

Lemma source_step_Ok d source d' :
  source_step w d source = Ok d' ↔
  ∃ ps, source_pairs w source = Some ps ∧ d' = insert_all ps d.
Proof.
  unfold source_step, source_pairs.
  destruct (ElementTree_parse w source) as [els|e]; cbn.
  - split.
    + intros H. pose proof (annotation_fold_well_formed _ _ _ H) as Hwf.
      rewrite Hwf. rewrite annotation_fold_Ok in H by done.
      injection H as <-. eauto.
    + intros (ps & Hps & ->). destruct (well_formed els) eqn:Hwf; [|done].
      injection Hps as <-. by apply annotation_fold_Ok.
  - split; [done|]. by intros (? & ? & _).
Qed.

(** The outer loop inserts the pairs of the sources in their order. *)
Lemma sources_fold_Ok sources d d' :
  foldM (source_step w) sources d = Ok d' ↔
  ∃ pss, mapM (source_pairs w) sources = Some pss ∧
         d' = insert_all (concat pss) d.
Proof.
  revert d. induction sources as [|s sources IH]; intros d.
  - cbn. split; [intros [= <-]; by exists []|].
    by intros (pss & [= <-] & ->).
  - cbn [foldM]. rewrite result_bind_Ok. split.
    + intros (d1 & Hs & Hd). apply source_step_Ok in Hs as (ps & Hps & ->).
      apply IH in Hd as (pss & Hpss & ->).
      exists (ps :: pss). split; [|cbn [concat]; by rewrite insert_all_app].
      cbn [mapM]. rewrite Hps. cbn. by rewrite Hpss.
    + intros (pss & Hpss & ->). cbn [mapM] in Hpss.
      destruct (source_pairs w s) as [ps|] eqn:Hps; [|done]. cbn in Hpss.
      destruct (mapM (source_pairs w) sources) as [pss'|] eqn:Hpss'; [|done].
      cbn in Hpss. injection Hpss as <-.
      exists (insert_all ps d). split; [apply source_step_Ok; eauto|].
      apply IH. exists pss'. split; [done|].
      cbn [concat]. by rewrite insert_all_app.
Qed.

Lemma createCLDRAnnotationsDict_Ok sources d :
  createCLDRAnnotationsDict w sources = Ok d ↔
  ∃ pss, mapM (source_pairs w) sources = Some pss ∧
         d = insert_all (concat pss) (SymbolsDictionary_init None) ∧
         concat pss ≠ [].
Proof.
  unfold createCLDRAnnotationsDict. rewrite result_bind_Ok.
  setoid_rewrite sources_fold_Ok. split.
  - intros (d' & (pss & Hpss & ->) & Hd).
    exists pss. split; [done|].
    unfold dict_truthy in Hd.
    destruct (items (insert_all _ _)) eqn:E; [done|].
    injection Hd as <-. split; [done|].
    intros Hnil. rewrite Hnil in E. by cbn in E.
  - intros (pss & Hpss & -> & Hne). eexists. split; [eauto|].
    unfold dict_truthy.
    destruct (items (insert_all _ _)) eqn:E; [|done].
    apply insert_all_items_nil in E as [? _]. done.
Qed.

Lemma source_pairs_value source ps k :
  source_pairs w source = Some ps → source_value w source k = pairs_get k ps.
Proof.
  unfold source_pairs, source_value.
  destruct (ElementTree_parse w source) as [els|e]; [|done].
  destruct (well_formed els); [|done]. by intros [= <-].
Qed.
End Extraction.

Section Merge.
Context (w : cldr).
Implicit Types (d : SymbolsDictionary) (k v : str) (source : path).

Lemma createCLDRAnnotationsDict_pairs sources pss :
  mapM (source_pairs w) sources = Some pss → concat pss ≠ [] →
  createCLDRAnnotationsDict w sources =
  Ok (insert_all (concat pss) (SymbolsDictionary_init None)).
Proof. intros. apply createCLDRAnnotationsDict_Ok. eauto. Qed.

Lemma createCLDRAnnotationsDict_single source d :
  createCLDRAnnotationsDict w [source] = Ok d →
  ∃ ps, source_pairs w source = Some ps ∧
        ∀ k, getitem d k = pairs_get k ps.
Proof.
  intros (pss & Hpss & -> & _)%createCLDRAnnotationsDict_Ok.
  cbn [mapM] in Hpss. destruct (source_pairs w source) as [ps|]; [|done].
  injection Hpss as <-. exists ps. split; [done|].
  intros k. cbn [concat]. by rewrite app_nil_r.
Qed.

Lemma pairs_get_Some_nonempty k v ps : pairs_get k ps = Some v → ps ≠ [].
Proof. by intros H ->. Qed.

Lemma pairs_get_concat_None k (pss : list (list (str * str))) :
  Forall (λ ps, pairs_get k ps = None) pss → pairs_get k (concat pss) = None.
Proof.
  induction 1 as [|ps pss Hps _ IH]; [done|].
  cbn [concat]. by rewrite pairs_get_app, IH.
Qed.

Lemma mapM_source_pairs_app sources1 sources2 pss :
  mapM (source_pairs w) (sources1 ++ sources2) = Some pss →
  ∃ pss1 pss2, pss = pss1 ++ pss2 ∧
    mapM (source_pairs w) sources1 = Some pss1 ∧
    mapM (source_pairs w) sources2 = Some pss2.
Proof.
  intros (pss1 & pss2 & H1 & H2 & ->)%mapM_Some%Forall2_app_inv_l.
  exists pss1, pss2. split; [done|]. split; by apply mapM_Some.
Qed.

(** The value of a key in the merged dictionary is the one of the
    last source that has it. *)
Lemma merge_last_wins sources1 source sources2 d k v :
  createCLDRAnnotationsDict w (sources1 ++ source :: sources2) = Ok d →
  source_value w source k = Some v →
  Forall (λ s, source_value w s k = None) sources2 →
  getitem d k = Some v.
Proof.
  intros (pss & Hpss & -> & _)%createCLDRAnnotationsDict_Ok Hv Hlater.
  apply mapM_source_pairs_app in Hpss as (pss1 & pss' & -> & _ & Hpss).
  cbn [mapM] in Hpss.
  destruct (source_pairs w source) as [ps|] eqn:Hps; [|done].
  destruct (mapM (source_pairs w) sources2) as [pss2|] eqn:Hpss2; [|done].
  cbn in Hpss. injection Hpss as <-.
  fold (pairs_get k (concat (pss1 ++ ps :: pss2))).
  rewrite concat_app. cbn [concat]. rewrite !pairs_get_app.
  rewrite pairs_get_concat_None.
  - by rewrite <- (source_pairs_value w source ps k Hps), Hv.
  - apply mapM_Some in Hpss2. clear Hps Hv.
    induction Hpss2 as [|s ps' ss pss' Hs _ IH]; [done|].
    apply Forall_cons_1 in Hlater as [Hs' Hlater].
    constructor; [|by apply IH].
    by rewrite <- (source_pairs_value w s ps' k Hs).
Qed.

Lemma no_tts_fold sources d :
  Forall (λ s, ∃ els, ElementTree_parse w s = Ok els ∧ no_tts els = true)
    sources →
  foldM (source_step w) sources d = Ok d.
Proof.
  induction 1 as [|s ss (els & Hparse & [Hwf Hps]%no_tts_pairs) _ IH]; [done|].
  assert (source_step w d s = Ok d) as Hstep.
  { apply source_step_Ok. exists []. split; [|done].
    unfold source_pairs. by rewrite Hparse, Hwf, Hps. }
  cbn [foldM]. by rewrite Hstep.
Qed.
End Merge.

(** C2. When the source [A] alone gives the code point [cp] the
    description [a] and the source [B] alone gives it [b], the
    extraction from [A, B] succeeds with [b] for [cp] and the extraction
    from [B, A] succeeds with [a]: the source listed later overwrites. *)
Theorem later_source_overwrites (w : cldr) (A B : path) (cp a b : str)
    (dA dB : SymbolsDictionary) :
  createCLDRAnnotationsDict w [A] = Ok dA → getitem dA cp = Some a →
  createCLDRAnnotationsDict w [B] = Ok dB → getitem dB cp = Some b →
  (∃ d, createCLDRAnnotationsDict w [A; B] = Ok d ∧ getitem d cp = Some b) ∧
  (∃ d, createCLDRAnnotationsDict w [B; A] = Ok d ∧ getitem d cp = Some a).
Proof.
  intros (psA & HA & HdA)%createCLDRAnnotationsDict_single Ha
         (psB & HB & HdB)%createCLDRAnnotationsDict_single Hb.
  rewrite HdA in Ha. rewrite HdB in Hb.
  pose proof (pairs_get_Some_nonempty _ _ _ Ha) as HneA.
  pose proof (pairs_get_Some_nonempty _ _ _ Hb) as HneB.
  split; eexists; (split; [apply createCLDRAnnotationsDict_pairs|]).
  - cbn [mapM]. rewrite HA, HB. reflexivity.
  - cbn [concat]. by destruct psA.
  - fold (pairs_get cp (concat [psA; psB])). cbn [concat].
    by rewrite app_nil_r, pairs_get_app, Hb.
  - cbn [mapM]. rewrite HA, HB. reflexivity.
  - cbn [concat]. by destruct psB.
  - fold (pairs_get cp (concat [psB; psA])). cbn [concat].
    by rewrite app_nil_r, pairs_get_app, Ha.
Qed.

Lemma later_source_overwrites_witness :
  (∃ d, createCLDRAnnotationsDict sr_world [sr_xml; sr_Latn_xml] = Ok d ∧
        getitem d grinning = Some (lit "grin")) ∧
  (∃ d, createCLDRAnnotationsDict sr_world [sr_Latn_xml; sr_xml] = Ok d ∧
        getitem d grinning = Some (lit "grinning face")).
Proof.
  eapply (later_source_overwrites sr_world sr_xml sr_Latn_xml grinning);
    reflexivity.
Defined.

(** C4. The extraction never returns a dictionary without entries. When
    every source parses and holds no tts-typed annotation, and so for
    the empty list of sources, it raises [AssertionError], which the
    caller takes as "nothing for this language". *)
Theorem empty_extraction_raises (w : cldr) (sources : list path) :
  (∀ d, createCLDRAnnotationsDict w sources = Ok d → items d ≠ []) ∧
  (Forall (λ s, ∃ els, ElementTree_parse w s = Ok els ∧ no_tts els = true)
     sources →
   createCLDRAnnotationsDict w sources = Raise AssertionError ∧
   ∀ st, (try_createCLDRAnnotationsDict w sources st).1 = Ok None) ∧
  createCLDRAnnotationsDict w [] = Raise AssertionError.
Proof.
  split; [|split; [|done]].
  - intros d. unfold createCLDRAnnotationsDict.
    intros (d' & _ & Hd)%result_bind_Ok. unfold dict_truthy in Hd.
    destruct (items d') eqn:E; [done|]. injection Hd as <-. by rewrite E.
  - intros Hno.
    assert (createCLDRAnnotationsDict w sources = Raise AssertionError) as Hraise.
    { unfold createCLDRAnnotationsDict. by rewrite no_tts_fold. }
    split; [done|]. intros st.
    unfold try_createCLDRAnnotationsDict, bind, log. by rewrite Hraise.
Qed.

Lemma empty_extraction_raises_witness :
  createCLDRAnnotationsDict sr_world [] = Raise AssertionError.
Proof.
  destruct (empty_extraction_raises sr_world []) as (_ & H & _).
  exact (proj1 (H (Forall_nil_2 _))).
Defined.

(** ** The statements of the emoji step *)

Section Statements.
Context (P : event → Prop).
Implicit Types (st : state) (name : str).

Lemma extends_refl st : extends P st st.
Proof.
  repeat split; try done. exists []. by rewrite app_nil_r.
Qed.

Lemma extends_trans st1 st2 st3 :
  extends P st1 st2 → extends P st2 st3 → extends P st1 st3.
Proof.
  intros (Hp & Hd & Hf & evs & Ht & He) (Hp' & Hd' & Hf' & evs' & Ht' & He').
  repeat split; try by etrans.
  exists (evs ++ evs'). rewrite Ht', Ht, app_assoc. split; [done|].
  by apply Forall_app.
Qed.

Lemma preserves_ret {A : Type} (a : A) : preserves (extends P) (ret a).
Proof. intros st. apply extends_refl. Qed.

Lemma preserves_raise {A : Type} e : preserves (extends P) (@raise A e).
Proof. intros st. apply extends_refl. Qed.

Lemma preserves_bind {A B : Type} (m : M A) (k : A → M B) :
  preserves (extends P) m → (∀ a, preserves (extends P) (k a)) →
  preserves (extends P) (bind m k).
Proof.
  intros Hm Hk st. unfold bind. specialize (Hm st).
  destruct (m st) as [[a|e] st1]; [|done].
  eapply extends_trans; [done|]. apply Hk.
Qed.

Lemma preserves_for {A : Type} (l : list A) (body : A → M unit) :
  (∀ x, x ∈ l → preserves (extends P) (body x)) →
  preserves (extends P) (for_ l body).
Proof.
  induction l as [|x l IH]; intros Hbody; cbn [for_].
  - apply preserves_ret.
  - apply preserves_bind; [apply Hbody, list_elem_of_here|].
    intros _. apply IH. intros y Hy. by apply Hbody, list_elem_of_further.
Qed.

Lemma preserves_for_acc {A B : Type} (l : list B) (a : A) (body : A → B → M A) :
  (∀ a x, preserves (extends P) (body a x)) →
  preserves (extends P) (for_acc l a body).
Proof.
  intros Hbody. revert a. induction l as [|x l IH]; intros a; cbn [for_acc].
  - apply preserves_ret.
  - by apply preserves_bind.
Qed.

Lemma preserves_path_exists name : preserves (extends P) (path_exists name).
Proof. intros st. apply extends_refl. Qed.

Lemma preserves_get_processedFiles : preserves (extends P) get_processedFiles.
Proof. intros st. apply extends_refl. Qed.

Lemma preserves_processedFiles_append name :
  preserves (extends P) (processedFiles_append name).
Proof.
  intros st. repeat split; cbn; try done.
  - by apply prefix_app_r.
  - exists []. by rewrite app_nil_r.
Qed.

Lemma preserves_log e : P e → preserves (extends P) (log e).
Proof.
  intros He st. repeat split; cbn; try done. exists [e]. split; [done|].
  by constructor.
Qed.

Lemma preserves_os_mkdir name :
  P (Mkdir name) → preserves (extends P) (os_mkdir name).
Proof.
  intros He st. unfold os_mkdir.
  repeat case_match; try apply extends_refl.
  repeat split; cbn; try done.
  - by apply prefix_app_r.
  - exists [Mkdir name]. split; [done|]. by constructor.
Qed.

Lemma put_file_keys p content (l : list (str * str)) :
  l.*1 `prefix_of` (put_file p content l).*1.
Proof.
  induction l as [|[p' c'] l IH]; cbn.
  - apply prefix_nil.
  - case_bool_decide; cbn; [done|]. by apply prefix_cons.
Qed.

Lemma preserves_write_file dir name content :
  P (Write (path_join dir name)) →
  preserves (extends P) (write_file dir name content).
Proof.
  intros He st. unfold write_file.
  repeat case_match; try apply extends_refl.
  repeat split; cbn; try done.
  - apply put_file_keys.
  - eexists. split; [done|]. by constructor.
Qed.

Lemma preserves_try_createCLDRAnnotationsDict w sources :
  P (Extract sources) →
  preserves (extends P) (try_createCLDRAnnotationsDict w sources).
Proof.
  intros He. unfold try_createCLDRAnnotationsDict.
  apply preserves_bind; [by apply preserves_log|]. intros _.
  repeat case_match; apply preserves_ret || apply preserves_raise.
Qed.
End Statements.

(** ** The two loops *)

Section Loops.
Context (w : cldr).
Implicit Types (st : state) (CLDRFile lang : str) (files : list str).

Lemma exception_sources_app files1 files2 :
  exception_sources w (files1 ++ files2) =
  exception_sources w files1 ++ exception_sources w files2.
Proof. unfold exception_sources. by rewrite flat_map_app. Qed.

(** The inner loop of the exception phase: what it collects and what
    it records. *)
Lemma collect_sources_spec files st :
  collect_sources w files st =
  (Ok (exception_sources w files),
   {| processedFiles := processedFiles st ++ exception_names files;
      cwd := cwd st; trace := trace st |}).
Proof.
  unfold collect_sources.
  enough (∀ acc st,
    for_acc files acc
      (λ cldrSources CLDRFile,
         let cldrSources :=
           if source_exists w (annotationsDir, CLDRFile ++ lit ".xml")
           then cldrSources ++ [(annotationsDir, CLDRFile ++ lit ".xml")]
           else cldrSources in
         let cldrSources :=
           if source_exists w (annotationsDerivedDir, CLDRFile ++ lit ".xml")
           then cldrSources ++ [(annotationsDerivedDir, CLDRFile ++ lit ".xml")]
           else cldrSources in
         processedFiles_append (CLDRFile ++ lit ".xml") ;;;
         ret cldrSources) st =
    (Ok (acc ++ exception_sources w files),
     {| processedFiles := processedFiles st ++ exception_names files;
        cwd := cwd st; trace := trace st |})) as H by apply (H []).
  induction files as [|f files IH]; intros acc [pf t tr].
  - cbn. by rewrite !app_nil_r.
  - cbn [for_acc]. unfold bind at 1. cbn [processedFiles_append bind ret].
    unfold bind at 1. cbn [processedFiles_append ret processedFiles cwd trace].
    rewrite IH. cbn [processedFiles cwd trace].
    change (f :: files) with ([f] ++ files).
    rewrite exception_sources_app. unfold exception_names.
    rewrite fmap_app, !app_assoc. do 3 f_equal.
    unfold exception_sources. cbn [flat_map]. rewrite app_nil_r.
    by repeat case_match; rewrite <- ?app_assoc, ?app_nil_r.
Qed.

(** A file already recorded is passed over. *)
Lemma scan_body_processed CLDRFile st :
  CLDRFile ∈ processedFiles st → scan_body w CLDRFile st = (Ok (), st).
Proof.
  intros Hin. unfold scan_body, bind, get_processedFiles.
  by rewrite bool_decide_eq_true_2.
Qed.

Lemma preserves_scan_body CLDRFile :
  preserves (extends (about CLDRFile)) (scan_body w CLDRFile).
Proof.
  unfold scan_body.
  apply preserves_bind; [apply preserves_get_processedFiles|]. intros processed.
  case_bool_decide; [apply preserves_ret|].
  apply preserves_bind; [apply preserves_path_exists|]. intros ex.
  apply preserves_bind.
  { destruct ex; cbn; [apply preserves_ret|]. by apply preserves_os_mkdir. }
  intros _. apply preserves_bind.
  { apply preserves_try_createCLDRAnnotationsDict. cbn.
    case_match; repeat constructor. }
  intros [emojiDic|]; [|apply preserves_ret].
  apply preserves_bind; [by apply preserves_write_file|].
  intros _. apply preserves_processedFiles_append.
Qed.

Lemma preserves_exception_body entry :
  preserves (extends (λ _, True)) (exception_body w entry).
Proof.
  destruct entry as [lang files]. unfold exception_body.
  apply preserves_bind; [apply preserves_path_exists|]. intros ex.
  apply preserves_bind.
  { destruct ex; cbn; [apply preserves_ret|]. by apply preserves_os_mkdir. }
  intros _. apply preserves_bind.
  { apply preserves_for_acc. intros a x.
    apply preserves_bind; [apply preserves_processedFiles_append|].
    intros _. apply preserves_ret. }
  intros cldrSources. apply preserves_bind.
  { by apply preserves_try_createCLDRAnnotationsDict. }
  intros [emojiDic|]; [|apply preserves_ret].
  by apply preserves_write_file.
Qed.

(** An entry of the exception table that completes has recorded the
    names of its files. *)
Lemma exception_body_processed lang files st st' :
  exception_body w (lang, files) st = (Ok (), st') →
  exception_names files ⊆ processedFiles st'.
Proof.
  unfold exception_body. unfold bind at 1. cbn [path_exists].
  unfold bind at 1.
  destruct ((if negb (tree_exists (cwd st) lang) then os_mkdir lang else ret ()) st)
    as [[[]|e] st1] eqn:E1; [|done].
  unfold bind at 1. rewrite collect_sources_spec.
  intros Hrest.
  pose proof (preserves_bind (λ _, True)
    (try_createCLDRAnnotationsDict w (exception_sources w files))
    (λ r, match r with
          | Some emojiDic =>
              write_file lang (lit "emojis.dic") (docHeader ++ __str__ emojiDic)
          | None => ret ()
          end)) as Hp.
  unshelve epose proof (Hp _ _ _) as (Hpre & _); last first.
  { rewrite Hrest in Hpre. cbn in Hpre.
    intros x Hx. eapply elem_of_prefix; [|exact Hpre].
    apply elem_of_app. by right. }
  - intros [emojiDic|]; [by apply preserves_write_file|apply preserves_ret].
  - by apply preserves_try_createCLDRAnnotationsDict.
Qed.
End Loops.

Section Phases.
Context (w : cldr).
Implicit Types (st : state) (f lang : str).

Lemma for_cons_Ok {A : Type} (x : A) l (body : A → M unit) st st' :
  for_ (x :: l) body st = (Ok (), st') →
  ∃ st1, body x st = (Ok (), st1) ∧ for_ l body st1 = (Ok (), st').
Proof.
  cbn [for_]. unfold bind. destruct (body x st) as [[[]|e] st1]; [|done].
  eauto.
Qed.

Lemma exceptions_processed (entries : list (str * list str)) st st' :
  for_ entries (exception_body w) st = (Ok (), st') →
  ∀ lang files f, (lang, files) ∈ entries → f ∈ files →
                  f ++ lit ".xml" ∈ processedFiles st'.
Proof.
  revert st. induction entries as [|[lang0 files0] entries IH]; intros st Hrun.
  { intros ??? H. by apply elem_of_nil in H. }
  apply for_cons_Ok in Hrun as (st1 & Hbody & Hrest).
  intros lang files f [[= -> ->]|Hin]%elem_of_cons Hf; [|by eapply IH].
  apply exception_body_processed in Hbody.
  pose proof (preserves_for (λ _, True) entries (exception_body w)
                (λ x _, preserves_exception_body w x) st1) as (Hpre & _).
  rewrite Hrest in Hpre. eapply elem_of_prefix; [|exact Hpre].
  apply Hbody. unfold exception_names.
  by apply (list_elem_of_fmap_2 (λ CLDRFile, CLDRFile ++ lit ".xml")).
Qed.

(** What the generic scan does, it does for files of the directory
    that are not recorded when it starts. *)
Lemma scan_loop (listing : list str) st :
  let st' := (for_ listing (scan_body w) st).2 in
  ∃ evs, trace st' = trace st ++ evs ∧
    Forall (λ e, ∃ f, f ∈ listing ∧ (f ∉ processedFiles st) ∧ about f e) evs.
Proof.
  revert st. induction listing as [|f listing IH]; intros st; cbn zeta.
  { exists []. by rewrite app_nil_r. }
  cbn [for_]. unfold bind.
  destruct (decide (f ∈ processedFiles st)) as [Hin|Hout].
  - rewrite scan_body_processed by done.
    destruct (IH st) as (evs & Ht & Hev). exists evs. split; [done|].
    eapply List.Forall_impl; [|exact Hev]. intros e (f' & ? & ? & ?).
    exists f'. split; [by apply list_elem_of_further|done].
  - pose proof (preserves_scan_body w f st) as (Hpre & _ & _ & evs1 & Ht1 & Hev1).
    assert (Forall (λ e, ∃ f', f' ∈ f :: listing ∧ (f' ∉ processedFiles st)
                               ∧ about f' e) evs1) as Hev1'.
    { eapply List.Forall_impl; [|exact Hev1]. intros e He.
      exists f. split; [apply list_elem_of_here|done]. }
    destruct (scan_body w f st) as [[[]|e] st1]; cbn [snd] in *; [|by eauto].
    destruct (IH st1) as (evs2 & Ht2 & Hev2).
    exists (evs1 ++ evs2). rewrite Ht2, Ht1, app_assoc. split; [done|].
    apply Forall_app. split; [done|].
    eapply List.Forall_impl; [|exact Hev2]. intros e (f' & ? & Hnot & ?).
    exists f'. split; [by apply list_elem_of_further|]. split; [|done].
    intros Hf'. apply Hnot. by eapply elem_of_prefix.
Qed.
End Phases.

(** ** The processed files *)

(** C8. The emoji step is the exception phase followed by the generic
    scan, from the four names recorded beforehand. When the exception
    phase has completed, these four and the name of every file listed in
    the exception table are recorded. The generic scan passes over a
    recorded file without any effect, so every directory it makes,
    every extraction and every file it writes is for a file of the
    annotations directory that was not recorded when the scan started.
    The list of recorded names only grows, in both phases. *)
Theorem processed_files_respected (w : cldr) :
  (∀ t, emoji_step w t =
        (exceptions_phase w ;;; generic_scan w) (initial_state t)) ∧
  (∀ t st1, exceptions_phase w (initial_state t) = (Ok (), st1) →
     (∀ f, f ∈ initial_processedFiles → f ∈ processedFiles st1) ∧
     (∀ lang files f, (lang, files) ∈ CLDRExceptionsList → f ∈ files →
                      f ++ lit ".xml" ∈ processedFiles st1)) ∧
  (∀ st f, f ∈ processedFiles st → scan_body w f st = (Ok (), st)) ∧
  (∀ st, ∃ evs,
     trace (generic_scan w st).2 = trace st ++ evs ∧
     Forall (λ e, ∃ f, f ∈ os_listdir w annotationsDir ∧
                       (f ∉ processedFiles st) ∧ about f e) evs) ∧
  (∀ st, processedFiles st `prefix_of` processedFiles (exceptions_phase w st).2 ∧
         processedFiles st `prefix_of` processedFiles (generic_scan w st).2).
Proof.
  split; [done|]. split; [|split; [|split]].
  - intros t st1 Hrun. split.
    + intros f Hf.
      pose proof (preserves_for (λ _, True) CLDRExceptionsList (exception_body w)
                    (λ x _, preserves_exception_body w x) (initial_state t))
        as (Hpre & _).
      unfold exceptions_phase in Hrun. rewrite Hrun in Hpre.
      by eapply elem_of_prefix.
    + by eapply exceptions_processed.
  - intros st f. apply scan_body_processed.
  - intros st. apply (scan_loop w).
  - intros st. split.
    + apply (preserves_for (λ _, True) CLDRExceptionsList (exception_body w)
               (λ x _, preserves_exception_body w x) st).
    + pose proof (scan_loop w (os_listdir w annotationsDir) st) as _.
      unfold generic_scan.
      enough (∀ l st, processedFiles st `prefix_of`
                      processedFiles (for_ l (scan_body w) st).2) as H by apply H.
      clear st. induction l as [|f l IH]; intros st; [done|].
      cbn [for_]. unfold bind.
      pose proof (preserves_scan_body w f st) as (Hpre & _).
      destruct (scan_body w f st) as [[[]|e] st1]; cbn [snd] in *; [|done].
      etrans; [exact Hpre|apply IH].
Qed.

Lemma processed_files_respected_witness :
  (lit "sr_Latn" ++ lit ".xml")
    ∈ processedFiles (exceptions_phase sr_world (initial_state empty_tree)).2 ∧
  scan_body sr_world ((lit "sr_Latn" ++ lit ".xml"))
    (exceptions_phase sr_world (initial_state empty_tree)).2 =
  (Ok (), (exceptions_phase sr_world (initial_state empty_tree)).2).
Proof.
  destruct (processed_files_respected sr_world) as (_ & Hexc & Hskip & _).
  assert (exceptions_phase sr_world (initial_state empty_tree) =
          (Ok (), (exceptions_phase sr_world (initial_state empty_tree)).2))
    as Hrun by (vm_compute; reflexivity).
  assert ((lit "sr_Latn" ++ lit ".xml")
            ∈ processedFiles (exceptions_phase sr_world (initial_state empty_tree)).2)
    as Hin.
  { apply (proj2 (Hexc empty_tree _ Hrun) (lit "sr") [lit "sr"; lit "sr_Latn"]
             (lit "sr_Latn")).
    - apply list_elem_of_here.
    - apply list_elem_of_further, list_elem_of_here. }
  split; [exact Hin|]. exact (Hskip _ _ Hin).
Defined.

(** ** Merge order of the exception table *)

(** C3, as amended. For an entry of the exception table, the inner loop
    hands the extraction the sources of the listed files in their order
    (annotations, then derived, for each). When the merged dictionary is
    built, its value for a key is the one of the last of these sources
    that has the key: a file listed later takes precedence over one
    listed earlier. *)
Theorem exception_merge_last_wins (w : cldr) (lang : str) (files : list str)
    (sources1 sources2 : list path) (source : path) (d : SymbolsDictionary)
    (k v : str) :
  (lang, files) ∈ CLDRExceptionsList →
  exception_sources w files = sources1 ++ source :: sources2 →
  createCLDRAnnotationsDict w (exception_sources w files) = Ok d →
  source_value w source k = Some v →
  Forall (λ s, source_value w s k = None) sources2 →
  (∀ st, (collect_sources w files st).1 = Ok (exception_sources w files)) ∧
  getitem d k = Some v.
Proof.
  intros _ Hsplit Hd Hv Hlater. split.
  - intros st. by rewrite collect_sources_spec.
  - rewrite Hsplit in Hd. by eapply merge_last_wins.
Qed.

Lemma exception_merge_last_wins_witness :
  ∃ d, createCLDRAnnotationsDict sr_world
         (exception_sources sr_world [lit "sr"; lit "sr_Latn"]) = Ok d ∧
       getitem d grinning = Some (lit "grin").
Proof.
  eexists. split; [vm_compute; reflexivity|].
  eapply (exception_merge_last_wins sr_world (lit "sr") [lit "sr"; lit "sr_Latn"]
            [sr_xml] [] sr_Latn_xml _ grinning (lit "grin")).
  - apply list_elem_of_here.
  - reflexivity.
  - vm_compute. reflexivity.
  - reflexivity.
  - constructor.
Defined.

(** The claim C3 as it is written fails: with the two files of [sr]
    holding the same code point, the dictionary written for [sr] has the
    description of the file listed last, not of the one listed first. *)
Lemma first_listed_counterexample :
  (lit "sr", [lit "sr"; lit "sr_Latn"]) ∈ CLDRExceptionsList ∧
  source_value sr_world sr_xml grinning = Some (lit "grinning face") ∧
  source_value sr_world sr_Latn_xml grinning = Some (lit "grin") ∧
  (∃ d, createCLDRAnnotationsDict sr_world
          (exception_sources sr_world [lit "sr"; lit "sr_Latn"]) = Ok d ∧
        getitem d grinning ≠ source_value sr_world sr_xml grinning) ∧
  files (cwd (emoji_step sr_world empty_tree).2) =
    [(lit "sr/emojis.dic",
      docHeader ++ header
        ++ grinning ++ [TAB] ++ lit "grin" ++ [TAB] ++ lit "none" ++ [CR; LF])].
Proof.
  split; [apply list_elem_of_here|].
  split; [reflexivity|]. split; [reflexivity|]. split.
  - eexists. split; [vm_compute; reflexivity|]. vm_compute. discriminate.
  - vm_compute. reflexivity.
Qed.

(** ** Directories of the languages *)

(** C7, where the code departs from it. The emoji step on a CLDR tree
    whose one language has no tts annotation, from an empty working
    directory: the extraction of every language raises [AssertionError]
    and no file is written, yet the five directories of the exception
    table and the directory of the language are made. *)
Theorem empty_language_directory_created :
  createCLDRAnnotationsDict lonely_world [(annotationsDir, lit "xx.xml")]
    = Raise AssertionError ∧
  (emoji_step lonely_world empty_tree).1 = Ok () ∧
  dirs (cwd (emoji_step lonely_world empty_tree).2) =
    [lit "sr"; lit "sr_BA"; lit "yue"; lit "zh_HK"; lit "zh_TW"; lit "xx"] ∧
  files (cwd (emoji_step lonely_world empty_tree).2) = [].
Proof. repeat split; vm_compute; reflexivity. Qed.

Section Languages.
Context (w : cldr).
Implicit Types (st : state) (f lang : str).

(** Both loops make the directory before they know whether there is
    anything to write: a language whose extraction is empty keeps the
    directory and gets no file. *)
Lemma scan_body_empty f st :
  f ∉ processedFiles st → CLDRLang_of f ≠ [] →
  tree_exists (cwd st) (CLDRLang_of f) = false →
  createCLDRAnnotationsDict w
    ([(annotationsDir, f)]
       ++ (if source_exists w (annotationsDerivedDir, f)
           then [(annotationsDerivedDir, f)] else [])) = Raise AssertionError →
  ∃ st', scan_body w f st = (Ok (), st') ∧
         processedFiles st' = processedFiles st ∧
         dirs (cwd st') = dirs (cwd st) ++ [CLDRLang_of f] ∧
         files (cwd st') = files (cwd st).
Proof.
  intros Hf Hlang Hex Hraise. fold (CLDRLang_of f) in *.
  unfold scan_body, bind, get_processedFiles, path_exists.
  rewrite bool_decide_eq_false_2 by done. fold (CLDRLang_of f).
  rewrite Hex. cbn [negb]. unfold os_mkdir.
  rewrite bool_decide_eq_false_2 by done. rewrite Hex.
  unfold try_createCLDRAnnotationsDict, bind, log. rewrite Hraise.
  eexists. split; [reflexivity|]. done.
Qed.

Lemma exception_body_empty lang (listed : list str) st :
  lang ≠ [] → tree_exists (cwd st) lang = false →
  createCLDRAnnotationsDict w (exception_sources w listed) = Raise AssertionError →
  ∃ st', exception_body w (lang, listed) st = (Ok (), st') ∧
         dirs (cwd st') = dirs (cwd st) ++ [lang] ∧
         files (cwd st') = files (cwd st).
Proof.
  intros Hlang Hex Hraise.
  unfold exception_body. unfold bind at 1, path_exists. rewrite Hex. cbn [negb].
  unfold bind at 1, os_mkdir.
  rewrite bool_decide_eq_false_2 by done. rewrite Hex.
  unfold bind at 1. rewrite collect_sources_spec.
  unfold try_createCLDRAnnotationsDict, bind, log. rewrite Hraise.
  eexists. split; [reflexivity|]. done.
Qed.

Lemma bind_Ok {A B : Type} (m : M A) (k : A → M B) st a st1 :
  m st = (Ok a, st1) → bind m k st = k a st1.
Proof. intros H. unfold bind. by rewrite H. Qed.

(** The body of the generic scan for a file that is not recorded. *)
Lemma scan_body_unprocessed f st :
  f ∉ processedFiles st →
  scan_body w f st =
  bind (if negb (tree_exists (cwd st) (CLDRLang_of f))
        then os_mkdir (CLDRLang_of f) else ret ())
    (λ _,
       r <- try_createCLDRAnnotationsDict w
              ([(annotationsDir, f)]
                 ++ (if source_exists w (annotationsDerivedDir, f)
                     then [(annotationsDerivedDir, f)] else [])) ;;
       match r with
       | None => ret ()
       | Some emojiDic =>
           write_file (CLDRLang_of f) (lit "emojis.dic")
             (docHeader ++ __str__ emojiDic) ;;;
           processedFiles_append f
       end) st.
Proof.
  intros Hf. unfold scan_body. unfold bind at 1, get_processedFiles.
  rewrite bool_decide_eq_false_2 by done. reflexivity.
Qed.

Lemma CLDRLang_of_app lang ext :
  length ext = 4 → CLDRLang_of (lang ++ ext) = lang.
Proof.
  intros Hext. unfold CLDRLang_of, slice_to_minus.
  rewrite length_app, Hext, Nat.add_sub. by rewrite take_app_length.
Qed.

Lemma CLDRLang_of_nonempty f : 4 < length f → CLDRLang_of f ≠ [].
Proof.
  intros Hlen Hnil. apply (f_equal length) in Hnil.
  unfold CLDRLang_of, slice_to_minus in Hnil.
  rewrite length_take in Hnil. cbn in Hnil. lia.
Qed.

End Languages.

(** What follows the directory in the body of the generic scan leaves
    the directories as they are, and starts with the extraction. *)
Lemma scan_rest_spec (w : cldr) (f : str) (st : state) :
  let sources :=
    [(annotationsDir, f)]
      ++ (if source_exists w (annotationsDerivedDir, f)
          then [(annotationsDerivedDir, f)] else []) in
  let st' :=
    (bind (try_createCLDRAnnotationsDict w sources)
       (λ r, match r with
             | None => ret ()
             | Some emojiDic =>
                 write_file (CLDRLang_of f) (lit "emojis.dic")
                   (docHeader ++ __str__ emojiDic) ;;;
                 processedFiles_append f
             end) st).2 in
  dirs (cwd st') = dirs (cwd st) ∧
  (files (cwd st)).*1 `prefix_of` (files (cwd st')).*1 ∧
  ∃ evs, trace st' = trace st ++ Extract sources :: evs.
Proof.
  cbn zeta.
  generalize ([(annotationsDir, f)]
                ++ (if source_exists w (annotationsDerivedDir, f)
                    then [(annotationsDerivedDir, f)] else [])).
  intros sources. unfold try_createCLDRAnnotationsDict, bind, log.
  destruct (createCLDRAnnotationsDict w sources) as [d|[]];
    cbn [ret raise snd cwd dirs files trace];
    try (split; [done|]; split; [done|]; by exists []).
  unfold write_file, processedFiles_append. cbn [cwd dirs files trace].
  destruct (negb _); cbn [snd cwd dirs files trace];
    [split; [done|]; split; [done|]; by exists []|].
  destruct (tree_isdir _ _); cbn [snd cwd dirs files trace];
    [split; [done|]; split; [done|]; by exists []|].
  split; [done|]. split; [apply put_file_keys|].
  rewrite <- app_assoc. by eexists.
Qed.

(** When the language code does not name a directory, what follows the
    directory writes nothing and records nothing, and raises at the
    write when the extraction gives a dictionary. *)
Lemma scan_rest_no_directory (w : cldr) (f : str) (st : state) :
  tree_isdir (cwd st) (CLDRLang_of f) = false →
  let sources :=
    [(annotationsDir, f)]
      ++ (if source_exists w (annotationsDerivedDir, f)
          then [(annotationsDerivedDir, f)] else []) in
  let run :=
    bind (try_createCLDRAnnotationsDict w sources)
       (λ r, match r with
             | None => ret ()
             | Some emojiDic =>
                 write_file (CLDRLang_of f) (lit "emojis.dic")
                   (docHeader ++ __str__ emojiDic) ;;;
                 processedFiles_append f
             end) st in
  files (cwd run.2) = files (cwd st) ∧
  processedFiles run.2 = processedFiles st ∧
  ∀ d, createCLDRAnnotationsDict w sources = Ok d → run.1 = Raise OSError.
Proof.
  intros Hdir. cbn zeta.
  generalize ([(annotationsDir, f)]
                ++ (if source_exists w (annotationsDerivedDir, f)
                    then [(annotationsDerivedDir, f)] else [])).
  intros sources. unfold try_createCLDRAnnotationsDict, bind, log.
  destruct (createCLDRAnnotationsDict w sources) as [d|[]];
    cbn [ret raise fst snd cwd dirs files trace processedFiles];
    try (split; [done|]; split; [done|]; by intros ? [=]).
  unfold write_file. cbn [cwd dirs files trace]. rewrite Hdir.
  cbn [negb fst snd cwd files processedFiles]. done.
Qed.

Lemma tree_isdir_exists (t : tree) (p : str) :
  tree_isdir t p = true → tree_exists t p = true.
Proof. intros H. unfold tree_exists. by rewrite H. Qed.

Lemma tree_isdir_dirs (t t' : tree) (p : str) :
  dirs t' = dirs t → tree_isdir t' p = tree_isdir t p.
Proof. intros H. unfold tree_isdir. by rewrite H. Qed.

Lemma tree_isdir_made (t : tree) (p : str) :
  p ∈ dirs t → tree_isdir t p = true.
Proof.
  intros H. unfold tree_isdir. apply orb_true_iff. right.
  by apply bool_decide_eq_true.
Qed.

(** C9, as amended. The language code of the generic scan is the file
    name without its last four characters, whatever these are, and the
    empty string for a name of four characters or fewer. For a
    file that is not recorded and whose name has more than four
    characters, the body goes on to the extraction of this file, and
    every directory made, source read and file written is named after
    the file. When nothing has the name of the language code, the
    directory is made, at the end of the directories; when the name is a
    directory, it is kept and none is made; in both cases the directory
    exists when the body is over. When the name is a regular file, no
    directory is made and none exists afterwards, nothing is written
    and the file is not recorded, and the body raises at the write when
    the extraction gives a dictionary. *)
Theorem scan_truncates_name (w : cldr) (f : str) (st : state) :
  f ∉ processedFiles st → 4 < length f →
  let lang := CLDRLang_of f in
  let st' := (scan_body w f st).2 in
  lang = take (length f - 4) f ∧
  (∀ name ext, length ext = 4 → CLDRLang_of (name ++ ext) = name) ∧
  (∀ name, length name ≤ 4 → CLDRLang_of name = []) ∧
  (∃ evs, trace st' = trace st ++ evs ∧ Forall (about f) evs ∧
          ∃ sources, Extract sources ∈ evs ∧ (annotationsDir, f) ∈ sources) ∧
  (tree_exists (cwd st) lang = false →
   dirs (cwd st') = dirs (cwd st) ++ [lang] ∧
   tree_isdir (cwd st') lang = true) ∧
  (tree_isdir (cwd st) lang = true →
   dirs (cwd st') = dirs (cwd st) ∧
   tree_isdir (cwd st') lang = true) ∧
  (tree_isdir (cwd st) lang = false → tree_exists (cwd st) lang = true →
   dirs (cwd st') = dirs (cwd st) ∧
   tree_isdir (cwd st') lang = false ∧
   files (cwd st') = files (cwd st) ∧
   processedFiles st' = processedFiles st ∧
   ∀ d, createCLDRAnnotationsDict w (scan_sources w f) = Ok d →
        (scan_body w f st).1 = Raise OSError).
Proof.
  intros Hf Hlen lang st'.
  split; [done|]. split; [apply CLDRLang_of_app|].
  split.
  { intros name Hname. unfold CLDRLang_of, slice_to_minus.
    by replace (length name - 4) with 0 by lia. }
  pose proof (CLDRLang_of_nonempty f Hlen) as Hlang. fold lang in Hlang.
  pose proof (preserves_scan_body w f st) as (_ & _ & _ & evs & Ht & Hev).
  fold st' in Ht.
  pose proof (scan_rest_spec w f) as Hrest. cbn zeta in Hrest. fold lang in Hrest.
  pose proof (scan_rest_no_directory w f) as Hno. cbn zeta in Hno.
  fold lang in Hno.
  assert (scan_body w f st =
          bind (if negb (tree_exists (cwd st) lang)
                then os_mkdir lang else ret ())
            (λ _,
               r <- try_createCLDRAnnotationsDict w
                      ([(annotationsDir, f)]
                         ++ (if source_exists w (annotationsDerivedDir, f)
                             then [(annotationsDerivedDir, f)] else [])) ;;
               match r with
               | None => ret ()
               | Some emojiDic =>
                   write_file lang (lit "emojis.dic")
                     (docHeader ++ __str__ emojiDic) ;;;
                   processedFiles_append f
               end) st) as Hbody by by apply scan_body_unprocessed.
  assert (tree_exists (cwd st) lang = false →
          os_mkdir lang st =
          (Ok (), {| processedFiles := processedFiles st;
                     cwd := {| dirs := dirs (cwd st) ++ [lang];
                               files := files (cwd st) |};
                     trace := trace st ++ [Mkdir lang] |})) as Hmk.
  { intros E. unfold os_mkdir. rewrite bool_decide_eq_false_2 by done.
    by rewrite E. }
  split; [|split; [|split]].
  - exists evs. split; [done|]. split; [done|].
    assert (∃ sources evs1 evs2,
              trace st' = trace st ++ evs1 ++ Extract sources :: evs2 ∧
              (annotationsDir, f) ∈ sources) as (sources & evs1 & evs2 & Htr & Hin).
    { subst st'. rewrite Hbody.
      destruct (tree_exists (cwd st) lang) eqn:E; cbn [negb].
      - rewrite (bind_Ok _ _ st () st) by done.
        destruct (Hrest st) as (_ & _ & evs2 & Htr).
        eexists. exists [], evs2. split; [exact Htr|]. apply list_elem_of_here.
      - erewrite bind_Ok by by apply Hmk.
        match goal with
        | |- context [bind _ _ ?s] => destruct (Hrest s) as (_ & _ & evs2 & Htr)
        end.
        cbn [trace] in Htr.
        eexists. exists [Mkdir lang], evs2. rewrite Htr, <- app_assoc.
        split; [done|]. apply list_elem_of_here. }
    exists sources. split; [|done].
    rewrite Ht in Htr. apply app_inv_head in Htr. rewrite Htr.
    apply elem_of_app. right. apply list_elem_of_here.
  - intros E. subst st'. rewrite Hbody, E. cbn [negb].
    erewrite bind_Ok by by apply Hmk.
    match goal with
    | |- context [bind _ _ ?s] => destruct (Hrest s) as (Hd & _ & _)
    end.
    cbn [cwd dirs] in Hd. split; [done|].
    apply tree_isdir_made. rewrite Hd. apply elem_of_app. right.
    apply list_elem_of_here.
  - intros E. subst st'. rewrite Hbody, (tree_isdir_exists _ _ E). cbn [negb].
    rewrite (bind_Ok _ _ st () st) by done.
    destruct (Hrest st) as (Hd & _ & _). split; [done|].
    by erewrite tree_isdir_dirs by exact Hd.
  - intros E Hex. subst st'. rewrite Hbody, Hex. cbn [negb].
    rewrite (bind_Ok _ _ st () st) by done.
    destruct (Hrest st) as (Hd & _ & _).
    destruct (Hno st E) as (Hfiles & Hproc & Hraise).
    split; [done|]. split; [by erewrite tree_isdir_dirs by exact Hd|].
    split; [done|]. split; [done|]. exact Hraise.
Qed.

Lemma scan_truncates_name_witness :
  lit "README.md" ∈ os_listdir readme_world annotationsDir ∧
  CLDRLang_of (lit "README.md") = lit "READM" ∧
  tree_isdir
    (cwd (scan_body readme_world (lit "README.md") (initial_state empty_tree)).2)
    (lit "READM") = true ∧
  (scan_body readme_world (lit "README.md") (initial_state readm_tree)).1
    = Raise OSError.
Proof.
  split; [apply list_elem_of_here|]. split; [reflexivity|].
  assert (lit "README.md" ∉ initial_processedFiles) as Hf.
  { intros Hin. apply list_elem_of_In in Hin. vm_compute in Hin.
    repeat (destruct Hin as [Hin|Hin]; [discriminate Hin|]). exact Hin. }
  assert (4 < length (lit "README.md")) as Hlen by (vm_compute; lia).
  split.
  - destruct (scan_truncates_name readme_world (lit "README.md")
                (initial_state empty_tree) Hf Hlen)
      as (_ & _ & _ & _ & Hmade & _).
    apply Hmade. vm_compute; reflexivity.
  - destruct (scan_truncates_name readme_world (lit "README.md")
                (initial_state readm_tree) Hf Hlen)
      as (_ & _ & _ & _ & _ & _ & Hfile).
    destruct Hfile as (_ & _ & _ & _ & Hraise); [vm_compute; reflexivity..|].
    eapply Hraise. vm_compute; reflexivity.
Defined.

(** The claim C9 as it is written fails on a name of four characters or
    fewer: the language code is the empty string, the directory cannot
    be made and the run stops there, with nothing made for the file. *)
Lemma short_name_counterexample :
  lit "abc" ∈ os_listdir short_world annotationsDir ∧
  (lit "abc" ∉ processedFiles (initial_state empty_tree)) ∧
  endswith (lit "abc") (lit ".xml") = false ∧
  CLDRLang_of (lit "abc") = [] ∧
  scan_body short_world (lit "abc") (initial_state empty_tree) =
    (Raise OSError, initial_state empty_tree) ∧
  (emoji_step short_world empty_tree).1 = Raise OSError ∧
  dirs (cwd (emoji_step short_world empty_tree).2) =
    [lit "sr"; lit "sr_BA"; lit "yue"; lit "zh_HK"; lit "zh_TW"] ∧
  files (cwd (emoji_step short_world empty_tree).2) = [].
Proof.
  split; [apply list_elem_of_here|]. split.
  { intros Hin. apply list_elem_of_In in Hin. vm_compute in Hin.
    repeat (destruct Hin as [Hin|Hin]; [discriminate Hin|]). exact Hin. }
  split; [reflexivity|]. split; [reflexivity|].
  repeat split; vm_compute; reflexivity.
Qed.

(** ** The font variants *)

Lemma keys_setitem (d : SymbolsDictionary) (k v k' : str) :
  k' ∈ keys (setitem d k v) ↔ k' = k ∨ k' ∈ keys d.
Proof.
  unfold keys, setitem. cbn [items].
  induction (items d) as [|[k0 v0] l IH]; cbn [setitem_list].
  - cbn. rewrite list_elem_of_singleton, elem_of_nil. tauto.
  - case_bool_decide as E; cbn [fmap list_fmap fst].
    + subst k0. rewrite !elem_of_cons. tauto.
    + rewrite !elem_of_cons, IH. cbn. tauto.
Qed.

Section FontVariantsFacts.
Context (int16 : str → result N) (utf8_normalize : str → result str).
Implicit Types (d : SymbolsDictionary) (row : list str) (fv p nf : str).

Abbreviation step := (fontVariant_step int16 utf8_normalize).

Lemma font_tagged_index row :
  font_tagged row = true →
  ∃ field5, index row 5 = Ok field5 ∧ startswith field5 (lit "<font>") = true.
Proof.
  unfold font_tagged, index. destruct (row !! 5) as [field5|]; [|done].
  eauto.
Qed.

(** A tagged record whose characters decode. *)
Lemma step_tagged d row fv p nf :
  font_tagged row = true →
  fontVariant_of int16 row = Ok fv → pronounced_of int16 row = Ok p →
  utf8_normalize fv = Ok nf →
  step d row = Ok (if bool_decide (p = nf) then d else setitem d fv p).
Proof.
  intros (field5 & H5 & Htag)%font_tagged_index Hfv Hp Hnf.
  unfold fontVariant_step, fontVariant_of, pronounced_of in *.
  rewrite H5 in Hp |- *. cbn in Hp |- *. rewrite Htag.
  destruct (index row 0) as [field0|]; [|done]. cbn in Hfv |- *.
  destruct (int16 (lit "0x" ++ field0)) as [code|]; [|done]. cbn in Hfv |- *.
  rewrite Hfv. cbn.
  destruct (int16 (lit "0x" ++ slice_from 7 field5)) as [code'|]; [|done].
  cbn in Hp |- *. rewrite Hp. cbn. rewrite Hnf. cbn.
  unfold str_eqb. by destruct (bool_decide (p = nf)).
Qed.

(** What a record that raises nothing has done. *)
Lemma step_Ok d row d' :
  step d row = Ok d' →
  (font_tagged row = false ∧ d' = d) ∨
  (font_tagged row = true ∧
   ∃ fv p nf, fontVariant_of int16 row = Ok fv ∧
              pronounced_of int16 row = Ok p ∧ utf8_normalize fv = Ok nf ∧
              d' = if bool_decide (p = nf) then d else setitem d fv p).
Proof.
  unfold fontVariant_step, fontVariant_of, pronounced_of, font_tagged, index.
  destruct (row !! 5) as [field5|]; [|done]. cbn.
  destruct (startswith field5 (lit "<font>")); [|intros [= <-]; by left].
  destruct (row !! 0) as [field0|]; [|done]. cbn.
  destruct (int16 (lit "0x" ++ field0)) as [code|]; [|done]. cbn.
  destruct (chr code) as [fv|]; [|done]. cbn.
  destruct (int16 (lit "0x" ++ slice_from 7 field5)) as [code'|]; [|done]. cbn.
  destruct (chr code') as [p|]; [|done]. cbn.
  destruct (utf8_normalize fv) as [nf|] eqn:Hnf; [|done]. cbn.
  unfold str_eqb. intros Hd'. right. split; [done|].
  exists fv, p, nf. repeat split; try done.
  destruct (bool_decide (p = nf)); by injection Hd' as <-.
Qed.

(** The loop from any dictionary: the keys it adds are those of the
    records it keeps, with a value that such a record gives. *)
Lemma fontVariants_fold rows d0 d :
  foldM step rows d0 = Ok d →
  symbolsQualifier d = symbolsQualifier d0 ∧
  (∀ fv, fv ∈ keys d ↔
         fv ∈ keys d0 ∨ ∃ row p, row ∈ rows ∧ kept int16 utf8_normalize row fv p) ∧
  (∀ fv p, getitem d fv = Some p →
           getitem d0 fv = Some p ∨
           ∃ row, row ∈ rows ∧ kept int16 utf8_normalize row fv p).
Proof.
  revert d0. induction rows as [|row rows IH]; intros d0.
  { intros [= <-]. split; [done|]. split.
    - intros fv. split; [by left|]. intros [?|(row & p & []%elem_of_nil & _)]. done.
    - intros fv p ?. by left. }
  cbn [foldM]. intros (d1 & Hstep & Hrest)%result_bind_Ok.
  apply IH in Hrest as (Hq & Hkeys & Hvals).
  apply step_Ok in Hstep as [[Hno ->]|(Htag & fv0 & p0 & nf0 & Hfv & Hp & Hnf & ->)].
  - split; [done|]. split.
    + intros fv. rewrite Hkeys. split.
      * intros [?|(r & p & Hin & Hk)]; [by left|right].
        exists r, p. split; [by apply list_elem_of_further|done].
      * intros [?|(r & p & [->|Hin]%elem_of_cons & Hk)]; [by left| |].
        -- destruct Hk as (Htag & _). congruence.
        -- right. eauto.
    + intros fv p [?|(r & Hin & Hk)]%Hvals; [by left|right].
      exists r. split; [by apply list_elem_of_further|done].
  - case_bool_decide as Heq.
    + split; [done|]. split.
      * intros fv. rewrite Hkeys. split.
        -- intros [?|(r & p & Hin & Hk)]; [by left|right].
           exists r, p. split; [by apply list_elem_of_further|done].
        -- intros [?|(r & p & [->|Hin]%elem_of_cons & Hk)]; [by left| |].
           ++ destruct Hk as (_ & Hfv' & Hp' & nf & Hnf' & Hne).
              rewrite Hfv in Hfv'. injection Hfv' as <-.
              rewrite Hp in Hp'. injection Hp' as <-.
              rewrite Hnf in Hnf'. injection Hnf' as <-. done.
           ++ right. eauto.
      * intros fv p [?|(r & Hin & Hk)]%Hvals; [by left|right].
        exists r. split; [by apply list_elem_of_further|done].
    + assert (kept int16 utf8_normalize row fv0 p0) as Hkept.
      { split; [done|]. split; [done|]. split; [done|]. eauto. }
      split; [done|]. split.
      * intros fv. rewrite Hkeys, keys_setitem. split.
        -- intros [[->|?]|(r & p & Hin & Hk)].
           ++ right. exists row, p0. split; [apply list_elem_of_here|done].
           ++ by left.
           ++ right. exists r, p. split; [by apply list_elem_of_further|done].
        -- intros [?|(r & p & [->|Hin]%elem_of_cons & Hk)].
           ++ left. by right.
           ++ destruct Hk as (_ & Hfv' & _).
              rewrite Hfv in Hfv'. injection Hfv' as <-. left. by left.
           ++ right. eauto.
      * intros fv p [Hget|(r & Hin & Hk)]%Hvals.
        -- unfold getitem, setitem in Hget. cbn [items] in Hget.
           destruct (decide (fv = fv0)) as [->|Hne].
           ++ rewrite getitem_setitem_list in Hget. injection Hget as <-.
              right. exists row. split; [apply list_elem_of_here|done].
           ++ rewrite getitem_setitem_list_ne in Hget by done. by left.
        -- right. exists r. split; [by apply list_elem_of_further|done].
Qed.
End FontVariantsFacts.

(** C6. A record whose field 5 starts with the tag and whose two
    characters decode is inserted, font variant to plain character,
    when the normalization of the font variant is not the plain
    character, and leaves the dictionary as it is when it is. Over the
    whole table the dictionary has the qualifier [literal], its keys are
    the font variants of the records so kept, and each value is the
    plain character of such a record. *)
Theorem fontVariants_kept (int16 : str → result N)
    (utf8_normalize : str → result str) :
  (∀ d row fontVariant pronounced normalized,
     font_tagged row = true →
     fontVariant_of int16 row = Ok fontVariant →
     pronounced_of int16 row = Ok pronounced →
     utf8_normalize fontVariant = Ok normalized →
     (normalized ≠ pronounced →
      fontVariant_step int16 utf8_normalize d row =
      Ok (setitem d fontVariant pronounced)) ∧
     (normalized = pronounced →
      fontVariant_step int16 utf8_normalize d row = Ok d)) ∧
  (∀ rows d,
     fontVariantsDict int16 utf8_normalize rows = Ok d →
     symbolsQualifier d = Some (lit "literal") ∧
     (∀ fontVariant,
        fontVariant ∈ keys d ↔
        ∃ row pronounced,
          row ∈ rows ∧ kept int16 utf8_normalize row fontVariant pronounced) ∧
     (∀ fontVariant pronounced,
        getitem d fontVariant = Some pronounced →
        ∃ row, row ∈ rows ∧
               kept int16 utf8_normalize row fontVariant pronounced)).
Proof.
  split.
  - intros d row fv p nf Htag Hfv Hp Hnf.
    rewrite (step_tagged _ _ d row fv p nf) by done.
    split; intros H; [by rewrite bool_decide_eq_false_2|
                      by rewrite bool_decide_eq_true_2].
  - intros rows d (Hq & Hkeys & Hvals)%fontVariants_fold.
    split; [done|]. split.
    + intros fv. rewrite Hkeys. split; [|by right].
      intros [[]%elem_of_nil|?]. done.
    + intros fv p [?|?]%Hvals; done.
Qed.

Lemma fontVariants_kept_witness :
  fontVariant_step hex_value no_normalize
    (SymbolsDictionary_init (Some (lit "literal"))) double_struck_C =
    Ok (setitem (SymbolsDictionary_init (Some (lit "literal"))) [8450%N] (lit "C")) ∧
  fontVariant_step hex_value normalize_double_struck
    (SymbolsDictionary_init (Some (lit "literal"))) double_struck_C =
    Ok (SymbolsDictionary_init (Some (lit "literal"))) ∧
  ∃ d, fontVariantsDict hex_value no_normalize [capital_C; double_struck_C] = Ok d ∧
       symbolsQualifier d = Some (lit "literal").
Proof.
  split; [|split].
  - apply (proj1 (fontVariants_kept hex_value no_normalize)
             _ double_struck_C [8450%N] (lit "C") [8450%N]);
      (reflexivity || discriminate).
  - apply (proj1 (fontVariants_kept hex_value normalize_double_struck)
             _ double_struck_C [8450%N] (lit "C") (lit "C"));
      reflexivity.
  - eexists. split; [vm_compute; reflexivity|].
    eapply (proj2 (fontVariants_kept hex_value no_normalize)
              [capital_C; double_struck_C]).
    vm_compute. reflexivity.
Defined.

(** * Further properties *)

(** ** Assignment and lookup *)

Lemma getitem_setitem_list_decide (k k' v : str) (l : list (str * str)) :
  getitem_list k' (setitem_list k v l) =
  if bool_decide (k' = k) then Some v else getitem_list k' l.
Proof.
  case_bool_decide as E.
  - subst. apply getitem_setitem_list.
  - by apply getitem_setitem_list_ne.
Qed.

Lemma setitem_list_keys_decide (k v : str) (l : list (str * str)) :
  (setitem_list k v l).*1 =
  if bool_decide (k ∈ l.*1) then l.*1 else l.*1 ++ [k].
Proof.
  case_bool_decide as E.
  - by apply setitem_list_keys.
  - rewrite setitem_list_fresh by done. by rewrite fmap_app.
Qed.

Lemma setitem_list_twice (k v v' : str) (l : list (str * str)) :
  setitem_list k v' (setitem_list k v l) = setitem_list k v' l.
Proof.
  induction l as [|[k0 v0] l IH]; cbn [setitem_list].
  - by rewrite bool_decide_eq_true_2.
  - case_bool_decide as E; cbn [setitem_list]; rewrite ?E.
    + by rewrite bool_decide_eq_true_2.
    + rewrite bool_decide_eq_false_2 by done. by rewrite IH.
Qed.

(** X1. After [d[k] = v] the dictionary gives [v] for [k] and what it
    gave before for every other key; the qualifier is kept; the number
    of entries grows by one when [k] is new and not at all otherwise;
    and a second assignment to [k] makes the first one forgotten. *)
Theorem setitem_getitem (d : SymbolsDictionary) (k v : str) :
  (∀ k', getitem (setitem d k v) k' =
         if bool_decide (k' = k) then Some v else getitem d k') ∧
  symbolsQualifier (setitem d k v) = symbolsQualifier d ∧
  length (items (setitem d k v)) =
    (if bool_decide (k ∈ keys d) then length (items d)
     else S (length (items d))) ∧
  (∀ v', setitem (setitem d k v) k v' = setitem d k v').
Proof.
  split; [|split; [done|split]].
  - intros k'. apply getitem_setitem_list_decide.
  - unfold keys, setitem. cbn [items].
    rewrite <- !(length_fmap fst), setitem_list_keys_decide.
    case_bool_decide; [done|]. rewrite length_app. cbn. lia.
  - intros v'. unfold setitem. cbn [items symbolsQualifier].
    by rewrite setitem_list_twice.
Qed.

(** ** Unique keys *)

Lemma setitem_NoDup (d : SymbolsDictionary) (k v : str) :
  NoDup (keys d) → NoDup (keys (setitem d k v)).
Proof.
  unfold keys, setitem. cbn [items]. intros Hnd.
  rewrite setitem_list_keys_decide. case_bool_decide as E; [done|].
  apply list.NoDup_app. split; [done|]. split; [|apply NoDup_singleton].
  intros x Hx ->%list_elem_of_singleton. done.
Qed.

Lemma insert_all_NoDup (ps : list (str * str)) (d : SymbolsDictionary) :
  NoDup (keys d) → NoDup (keys (insert_all ps d)).
Proof.
  revert d. induction ps as [|e ps IH]; intros d Hd; [done|].
  cbn [insert_all fold_left]. apply IH. by apply setitem_NoDup.
Qed.

Lemma createCLDRAnnotationsDict_NoDup (w : cldr) (sources : list path)
    (d : SymbolsDictionary) :
  createCLDRAnnotationsDict w sources = Ok d → NoDup (keys d).
Proof.
  intros (pss & _ & -> & _)%createCLDRAnnotationsDict_Ok.
  apply insert_all_NoDup. apply NoDup_nil_2.
Qed.

Lemma fontVariantsDict_NoDup (int16 : str → result N)
    (utf8_normalize : str → result str) (uDataCSV : list (list str))
    (d : SymbolsDictionary) :
  fontVariantsDict int16 utf8_normalize uDataCSV = Ok d → NoDup (keys d).
Proof.
  unfold fontVariantsDict.
  assert (NoDup (keys (SymbolsDictionary_init (Some (lit "literal")))))
    as Hnil by apply NoDup_nil_2.
  revert Hnil. generalize (SymbolsDictionary_init (Some (lit "literal"))).
  induction uDataCSV as [|row rows IH]; intros d0 Hd0.
  { by intros [= <-]. }
  cbn [foldM]. intros (d1 & Hstep & Hrest)%result_bind_Ok.
  apply (IH d1); [|done].
  apply step_Ok in Hstep as [[_ ->]|(_ & fv & p & nf & _ & _ & _ & ->)]; [done|].
  case_bool_decide; [done|]. by apply setitem_NoDup.
Qed.

(** X2. Assignment keeps the keys of a dictionary distinct, so the
    dictionary an extraction returns and the dictionary of the font
    variants have no key twice: the rendered file has one line for a
    pattern. *)
Theorem keys_unique :
  (∀ d k v, NoDup (keys d) → NoDup (keys (setitem d k v))) ∧
  (∀ w sources d, createCLDRAnnotationsDict w sources = Ok d → NoDup (keys d)) ∧
  (∀ int16 utf8_normalize uDataCSV d,
     fontVariantsDict int16 utf8_normalize uDataCSV = Ok d → NoDup (keys d)).
Proof.
  split; [apply setitem_NoDup|]. split.
  - apply createCLDRAnnotationsDict_NoDup.
  - apply fontVariantsDict_NoDup.
Qed.

Lemma keys_unique_witness : NoDup (keys literal_dict).
Proof.
  apply (proj1 keys_unique).
  apply (proj1 keys_unique). apply NoDup_nil_2.
Defined.

(** ** Where the entries of an extraction come from *)

Lemma setitem_list_elem (k v : str) (l : list (str * str)) (e : str * str) :
  e ∈ setitem_list k v l → e ∈ l ∨ e = (k, v).
Proof.
  induction l as [|[k0 v0] l IH]; cbn [setitem_list].
  - intros ->%list_elem_of_singleton. by right.
  - case_bool_decide as E.
    + subst k0. intros [->|?]%elem_of_cons; [by right|left].
      by apply list_elem_of_further.
    + intros [->|[?| ->]%IH]%elem_of_cons.
      * left. apply list_elem_of_here.
      * left. by apply list_elem_of_further.
      * by right.
Qed.

Lemma insert_all_elem (ps : list (str * str)) (d : SymbolsDictionary)
    (e : str * str) :
  e ∈ items (insert_all ps d) → e ∈ items d ∨ e ∈ ps.
Proof.
  revert d. induction ps as [|[k v] ps IH]; intros d; [by left|].
  cbn [insert_all fold_left fst snd]. intros [He|He]%IH.
  - apply setitem_list_elem in He as [?| ->]; [by left|right].
    apply list_elem_of_here.
  - right. by apply list_elem_of_further.
Qed.

Lemma tts_pairs_elem (els : list annotation) (e : str * str) :
  e ∈ tts_pairs els →
  ∃ el t, el ∈ els ∧ attrib_type el = Some (lit "tts") ∧
          attrib_cp el = Some e.1 ∧ text el = Some t ∧
          e.2 = remove_char COLON t.
Proof.
  unfold tts_pairs. intros (el & Hel & He)%list_elem_of_omap.
  unfold tts_pair in He. case_bool_decide as Htts; [|done].
  destruct (attrib_cp el) as [cp|] eqn:Hcp; [|done].
  destruct (text el) as [t|] eqn:Ht; [|done].
  injection He as <-. by exists el, t.
Qed.

Lemma remove_char_absent (c : N) (s : str) : c ∉ remove_char c s.
Proof. unfold remove_char. by intros [? _]%list_elem_of_filter. Qed.

(** X3. Every entry of an extracted dictionary comes from a tts-typed
    element of one of the sources: its key is the [cp] attribute of the
    element and its value is the text of the element without its
    colons. No description of an extracted dictionary holds a colon. *)
Theorem extracted_entries (w : cldr) (sources : list path)
    (d : SymbolsDictionary) (k v : str) :
  createCLDRAnnotationsDict w sources = Ok d → (k, v) ∈ items d →
  (COLON ∉ v) ∧
  ∃ source els el t,
    source ∈ sources ∧ ElementTree_parse w source = Ok els ∧ el ∈ els ∧
    attrib_type el = Some (lit "tts") ∧ attrib_cp el = Some k ∧
    text el = Some t ∧ v = remove_char COLON t.
Proof.
  intros (pss & Hpss & -> & _)%createCLDRAnnotationsDict_Ok Hin.
  apply insert_all_elem in Hin as [[]%elem_of_nil|Hin].
  apply list_elem_of_In, in_concat in Hin as (ps & Hps & Hin).
  apply list_elem_of_In in Hps, Hin.
  apply mapM_Some in Hpss.
  apply list_elem_of_lookup in Hps as (i & Hi).
  destruct (Forall2_lookup_r _ _ _ _ _ Hpss Hi) as (source & Hsource & Hsp).
  unfold source_pairs in Hsp.
  destruct (ElementTree_parse w source) as [els|] eqn:Hparse; [|done].
  destruct (well_formed els); [|done]. injection Hsp as <-.
  apply tts_pairs_elem in Hin as (el & t & Hel & Htype & Hcp & Ht & Hv).
  cbn [fst snd] in *. subst v. split; [apply remove_char_absent|].
  exists source, els, el, t. repeat split; try done.
  by eapply list_elem_of_lookup_2.
Qed.

Lemma extracted_entries_witness :
  (COLON ∉ lit "grin") ∧
  ∃ source els el t,
    source ∈ [sr_xml; sr_Latn_xml] ∧
    ElementTree_parse sr_world source = Ok els ∧ el ∈ els ∧
    attrib_type el = Some (lit "tts") ∧ attrib_cp el = Some grinning ∧
    text el = Some t ∧ lit "grin" = remove_char COLON t.
Proof.
  assert (createCLDRAnnotationsDict sr_world [sr_xml; sr_Latn_xml] =
          Ok {| symbolsQualifier := None; items := [(grinning, lit "grin")] |})
    as Hd by (vm_compute; reflexivity).
  exact (extracted_entries sr_world _ _ grinning (lit "grin") Hd
           (list_elem_of_here _ _)).
Defined.

(** ** Elements that are not tts-typed *)

Lemma find_file_strip (name : str) (l : list (str * file)) :
  find_file name (prod_map id strip_file <$> l) = strip_file <$> find_file name l.
Proof.
  induction l as [|[n f] l IH]; [done|]. cbn.
  case_bool_decide; [done|apply IH].
Qed.

Lemma annotation_fold_filter (els : list annotation) (d : SymbolsDictionary) :
  foldM annotation_step (List.filter is_tts els) d = foldM annotation_step els d.
Proof.
  revert d. induction els as [|el els IH]; intros d; [done|].
  cbn [List.filter foldM]. unfold is_tts at 1.
  destruct (bool_decide (attrib_type el = Some (lit "tts"))) eqn:E.
  - cbn [foldM]. destruct (annotation_step d el); cbn; [apply IH|done].
  - assert (annotation_step d el = Ok d) as ->
      by (unfold annotation_step; by rewrite E).
    cbn. apply IH.
Qed.

(** X4. The elements that are not tts-typed count for nothing:
    removing them from every file of the CLDR tree leaves the result of
    every extraction, dictionary or exception, as it is. *)
Theorem extraction_ignores_other_types (w : cldr) (sources : list path) :
  createCLDRAnnotationsDict (strip_world w) sources =
  createCLDRAnnotationsDict w sources.
Proof.
  unfold createCLDRAnnotationsDict. f_equal.
  generalize (SymbolsDictionary_init None).
  induction sources as [|[dir name] sources IH]; intros d; [done|].
  cbn [foldM].
  assert (source_step (strip_world w) d (dir, name) = source_step w d (dir, name))
    as ->.
  { unfold source_step, ElementTree_parse. cbn [fst snd].
    assert (entries (strip_world w) dir = prod_map id strip_file <$> entries w dir)
      as -> by by destruct dir.
    rewrite find_file_strip.
    destruct (find_file name (entries w dir)) as [[els|]|]; cbn; [|done..].
    apply annotation_fold_filter. }
  destruct (source_step w d (dir, name)); cbn; [apply IH|done].
Qed.

(** ** Order of the entries *)

Lemma dedup_first_snoc (l : list str) (x : str) :
  dedup_first (l ++ [x]) =
  if bool_decide (x ∈ dedup_first l) then dedup_first l
  else dedup_first l ++ [x].
Proof. unfold dedup_first. by rewrite fold_left_app. Qed.

Lemma elem_of_dedup_first (l : list str) (x : str) :
  x ∈ dedup_first l ↔ x ∈ l.
Proof.
  induction l as [|y l IH] using rev_ind; [done|].
  rewrite dedup_first_snoc, elem_of_app, list_elem_of_singleton.
  case_bool_decide as E.
  - rewrite IH. split; [by left|]. intros [?| ->]; [done|]. by apply IH.
  - rewrite elem_of_app, list_elem_of_singleton, IH. done.
Qed.

Lemma dedup_first_app (l1 l2 : list str) :
  dedup_first (l1 ++ l2) =
  dedup_first l1 ++ filter (λ x, x ∉ dedup_first l1) (dedup_first l2).
Proof.
  induction l2 as [|x l2 IH] using rev_ind.
  { by rewrite !app_nil_r. }
  rewrite app_assoc, !dedup_first_snoc, IH.
  destruct (decide (x ∈ dedup_first l2)) as [H2|H2].
  - rewrite (bool_decide_eq_true_2 (x ∈ dedup_first l2)) by done.
    rewrite bool_decide_eq_true_2; [done|].
    rewrite <- IH. apply elem_of_dedup_first, elem_of_app. right.
    by apply elem_of_dedup_first.
  - rewrite (bool_decide_eq_false_2 (x ∈ dedup_first l2)) by done.
    rewrite list.filter_app, filter_cons, filter_nil.
    destruct (decide (x ∈ dedup_first l1)) as [H1|H1].
    + rewrite bool_decide_eq_true_2 by (apply elem_of_app; by left).
      rewrite decide_False by (intros H; by apply H).
      by rewrite app_nil_r.
    + rewrite bool_decide_eq_false_2.
      2:{ rewrite elem_of_app, list_elem_of_filter. intros [?|[_ ?]]; done. }
      rewrite decide_True by done. by rewrite app_assoc.
Qed.

Lemma keys_insert_all (ps : list (str * str)) (d : SymbolsDictionary) :
  keys (insert_all ps d) =
  fold_left (λ acc x, if bool_decide (x ∈ acc) then acc else acc ++ [x])
    ps.*1 (keys d).
Proof.
  revert d. induction ps as [|[k v] ps IH]; intros d; [done|].
  cbn [insert_all fold_left fmap list_fmap fst snd]. rewrite IH. f_equal.
  unfold keys, setitem. cbn [items]. apply setitem_list_keys_decide.
Qed.

Lemma keys_insert_all_empty (ps : list (str * str)) :
  keys (insert_all ps (SymbolsDictionary_init None)) = dedup_first ps.*1.
Proof. apply keys_insert_all. Qed.

(** X5. The keys of an extracted dictionary are in the order in which
    they first occur in the sources. For two sources, the keys of the
    first come first, in the order they have in it, also when the second
    gives them another value, and the keys that only the second has
    follow in its order. *)
Theorem merge_order (w : cldr) :
  (∀ sources d,
     createCLDRAnnotationsDict w sources = Ok d →
     ∃ pss, mapM (source_pairs w) sources = Some pss ∧
            keys d = dedup_first (concat pss).*1) ∧
  (∀ A B dA dB,
     createCLDRAnnotationsDict w [A] = Ok dA →
     createCLDRAnnotationsDict w [B] = Ok dB →
     ∃ d, createCLDRAnnotationsDict w [A; B] = Ok d ∧
          keys d = keys dA ++ filter (λ k, k ∉ keys dA) (keys dB)).
Proof.
  assert (∀ sources d,
     createCLDRAnnotationsDict w sources = Ok d →
     ∃ pss, mapM (source_pairs w) sources = Some pss ∧
            keys d = dedup_first (concat pss).*1) as Hgen.
  { intros sources d (pss & Hpss & -> & _)%createCLDRAnnotationsDict_Ok.
    exists pss. split; [done|]. apply keys_insert_all_empty. }
  split; [done|].
  intros A B dA dB HA HB.
  destruct (Hgen _ _ HA) as (pssA & HpA & HkA).
  destruct (Hgen _ _ HB) as (pssB & HpB & HkB).
  apply createCLDRAnnotationsDict_Ok in HA as (pssA' & HpA' & _ & HneA).
  rewrite HpA in HpA'. injection HpA' as <-.
  cbn [mapM] in HpA, HpB.
  destruct (source_pairs w A) as [psA|] eqn:EA; [|done].
  destruct (source_pairs w B) as [psB|] eqn:EB; [|done].
  cbn in HpA, HpB. injection HpA as <-. injection HpB as <-.
  cbn [concat] in *. rewrite app_nil_r in *.
  exists (insert_all (concat [psA; psB]) (SymbolsDictionary_init None)). split.
  - apply createCLDRAnnotationsDict_pairs.
    + cbn [mapM]. by rewrite EA, EB.
    + cbn [concat]. by destruct psA.
  - rewrite keys_insert_all_empty. cbn [concat].
    by rewrite app_nil_r, fmap_app, dedup_first_app, HkA, HkB.
Qed.

Lemma merge_order_witness :
  ∃ d, createCLDRAnnotationsDict sr_world [sr_xml; sr_Latn_xml] = Ok d ∧
       keys d = [grinning].
Proof.
  destruct (proj2 (merge_order sr_world) sr_xml sr_Latn_xml
              {| symbolsQualifier := None;
                 items := [(grinning, lit "grinning face")] |}
              {| symbolsQualifier := None; items := [(grinning, lit "grin")] |})
    as (d & Hd & Hk); [vm_compute; reflexivity..|].
  exists d. split; [exact Hd|]. rewrite Hk. vm_compute. reflexivity.
Defined.

(** ** Errors of the extraction *)

Lemma foldM_app {A B : Type} (f : A → B → result A) (l1 l2 : list B) (a : A) :
  foldM f (l1 ++ l2) a = foldM f l1 a ≫= foldM f l2.
Proof.
  revert a. induction l1 as [|x l1 IH]; intros a; [done|].
  cbn [foldM app]. destruct (f a x) as [a'|e]; cbn; [apply IH|done].
Qed.

Lemma createCLDRAnnotationsDict_Raise (w : cldr) (good rest : list path)
    (bad : path) (pss : list (list (str * str))) (e : exn) :
  mapM (source_pairs w) good = Some pss →
  (∀ d, source_step w d bad = Raise e) →
  createCLDRAnnotationsDict w (good ++ bad :: rest) = Raise e.
Proof.
  intros Hgood Hbad. unfold createCLDRAnnotationsDict.
  rewrite foldM_app.
  assert (foldM (source_step w) good (SymbolsDictionary_init None) =
          Ok (insert_all (concat pss) (SymbolsDictionary_init None))) as ->
    by (apply sources_fold_Ok; eauto).
  cbn. by rewrite Hbad.
Qed.

(** X6. The extraction stops at the first source that fails, whatever
    follows it: with the exception of the parser when the source does
    not parse (or is missing), with [AttributeError] at the first
    tts-typed element without text, and with [KeyError] at the first
    tts-typed element that has a text and no [cp] attribute. *)
Theorem extraction_errors (w : cldr) (good rest : list path) (bad : path)
    (pss : list (list (str * str))) :
  mapM (source_pairs w) good = Some pss →
  (∀ e, ElementTree_parse w bad = Raise e →
        createCLDRAnnotationsDict w (good ++ bad :: rest) = Raise e) ∧
  (∀ pre el post,
     ElementTree_parse w bad = Ok (pre ++ el :: post) →
     well_formed pre = true → attrib_type el = Some (lit "tts") →
     (text el = None →
      createCLDRAnnotationsDict w (good ++ bad :: rest) = Raise AttributeError) ∧
     (is_Some (text el) → attrib_cp el = None →
      createCLDRAnnotationsDict w (good ++ bad :: rest) = Raise KeyError)).
Proof.
  intros Hgood. split.
  - intros e He. eapply createCLDRAnnotationsDict_Raise; [done|].
    intros d. unfold source_step. by rewrite He.
  - intros pre el post Hparse Hpre Htts.
    assert (∀ e, (∀ d, annotation_step d el = Raise e) →
                 createCLDRAnnotationsDict w (good ++ bad :: rest) = Raise e) as Hel.
    { intros e He. eapply createCLDRAnnotationsDict_Raise; [done|].
      intros d. unfold source_step. rewrite Hparse. cbn.
      rewrite foldM_app, annotation_fold_Ok by done. cbn. by rewrite He. }
    split.
    + intros Ht. apply Hel. intros d. unfold annotation_step.
      by rewrite bool_decide_eq_true_2, Ht.
    + intros [t Ht] Hcp. apply Hel. intros d. unfold annotation_step.
      by rewrite bool_decide_eq_true_2, Ht, Hcp.
Qed.

Lemma extraction_errors_witness :
  createCLDRAnnotationsDict sr_world
    ([sr_xml] ++ (annotationsDir, lit "sr_BA.xml") :: [sr_Latn_xml])
  = Raise OSError.
Proof.
  apply (proj1 (extraction_errors sr_world [sr_xml] [sr_Latn_xml]
                  (annotationsDir, lit "sr_BA.xml")
                  [[(grinning, lit "grinning face")]] eq_refl)).
  reflexivity.
Defined.

(** X7. Only [AssertionError] is caught. When the extraction for a file
    of the generic scan raises anything else, the scan stops with that
    exception at this file: no file is written, the file is not
    recorded, and the files after it are not looked at. The same holds
    for an entry of the exception table, whose files are recorded
    before the extraction. *)
Theorem other_errors_abort (w : cldr) (e : exn) :
  e ≠ AssertionError →
  (∀ f rest st,
     f ∉ processedFiles st → CLDRLang_of f ≠ [] →
     createCLDRAnnotationsDict w (scan_sources w f) = Raise e →
     ∃ st', for_ (f :: rest) (scan_body w) st = (Raise e, st') ∧
            files (cwd st') = files (cwd st) ∧
            processedFiles st' = processedFiles st) ∧
  (∀ lang listed rest st,
     lang ≠ [] →
     createCLDRAnnotationsDict w (exception_sources w listed) = Raise e →
     ∃ st', for_ ((lang, listed) :: rest) (exception_body w) st = (Raise e, st') ∧
            files (cwd st') = files (cwd st) ∧
            processedFiles st' = processedFiles st ++ exception_names listed).
Proof.
  intros He.
  assert (∀ sources st,
    createCLDRAnnotationsDict w sources = Raise e →
    try_createCLDRAnnotationsDict w sources st =
    (Raise e, {| processedFiles := processedFiles st; cwd := cwd st;
                 trace := trace st ++ [Extract sources] |})) as Htry.
  { intros sources st Hraise.
    unfold try_createCLDRAnnotationsDict, bind, log. rewrite Hraise.
    by destruct e. }
  split.
  - intros f rest st Hf Hlang Hraise. cbn [for_]. unfold bind at 1.
    rewrite scan_body_unprocessed by done. fold (scan_sources w f).
    destruct (tree_exists (cwd st) (CLDRLang_of f)) eqn:Hex; cbn [negb].
    + rewrite (bind_Ok _ _ st () st) by done.
      unfold bind at 1. rewrite Htry by done. by eexists.
    + erewrite bind_Ok; last first.
      { unfold os_mkdir. rewrite bool_decide_eq_false_2 by done. by rewrite Hex. }
      unfold bind at 1. rewrite Htry by done. by eexists.
  - intros lang listed rest st Hlang Hraise. cbn [for_]. unfold bind at 1.
    unfold exception_body. unfold bind at 1, path_exists.
    destruct (tree_exists (cwd st) lang) eqn:Hex; cbn [negb].
    + rewrite (bind_Ok _ _ st () st) by done.
      unfold bind at 1. rewrite collect_sources_spec.
      unfold bind at 1. rewrite Htry by done. by eexists.
    + erewrite bind_Ok; last first.
      { unfold os_mkdir. rewrite bool_decide_eq_false_2 by done. by rewrite Hex. }
      unfold bind at 1. rewrite collect_sources_spec.
      unfold bind at 1. rewrite Htry by done. by eexists.
Qed.

Lemma other_errors_abort_witness :
  ∃ st', for_ [lit "xx.xml"] (scan_body bad_world) (initial_state empty_tree)
         = (Raise ParseError, st') ∧
         files (cwd st') = [] ∧
         processedFiles st' = initial_processedFiles.
Proof.
  assert (ParseError ≠ AssertionError) as Hne by discriminate.
  assert (lit "xx.xml" ∉ processedFiles (initial_state empty_tree)) as Hf.
  { intros Hin. apply list_elem_of_In in Hin. vm_compute in Hin.
    repeat (destruct Hin as [Hin|Hin]; [discriminate Hin|]). exact Hin. }
  assert (CLDRLang_of (lit "xx.xml") ≠ []) as Hlang by discriminate.
  exact (proj1 (other_errors_abort bad_world ParseError Hne)
           (lit "xx.xml") [] (initial_state empty_tree) Hf Hlang eq_refl).
Defined.

(** ** The dictionary of the font variants *)

Lemma chr_Ok (n : N) (s : str) :
  chr n = Ok s → s = [n] ∧ (n ≤ 1114111)%N.
Proof. unfold chr. case_bool_decide; [by intros [= <-]|]. by case_bool_decide. Qed.

Lemma getitem_list_elem (k v : str) (l : list (str * str)) :
  NoDup l.*1 → (k, v) ∈ l → getitem_list k l = Some v.
Proof.
  induction l as [|[k0 v0] l IH]; [by intros _ ?%elem_of_nil|].
  cbn. intros [Hk0 Hnd]%list.NoDup_cons [[= -> ->]|Hin]%elem_of_cons.
  - by rewrite bool_decide_eq_true_2.
  - rewrite bool_decide_eq_false_2; [by apply IH|].
    intros ->. apply Hk0. by apply (list_elem_of_fmap_2 fst) in Hin.
Qed.

(** X8. Every entry of the dictionary of the font variants maps one
    character to one character: pattern and replacement are strings of
    length one, of code points up to U+10FFFF. *)
Theorem fontVariants_single_characters (int16 : str → result N)
    (utf8_normalize : str → result str) (uDataCSV : list (list str))
    (d : SymbolsDictionary) (k v : str) :
  fontVariantsDict int16 utf8_normalize uDataCSV = Ok d → (k, v) ∈ items d →
  ∃ n m, k = [n] ∧ v = [m] ∧ (n ≤ 1114111)%N ∧ (m ≤ 1114111)%N.
Proof.
  intros Hd Hin.
  pose proof (fontVariantsDict_NoDup _ _ _ _ Hd) as Hnd.
  apply fontVariants_fold in Hd as (_ & _ & Hvals).
  destruct (Hvals k v) as [Habs|(row & _ & _ & Hk & Hv & _)].
  { by apply getitem_list_elem. }
  { done. }
  unfold fontVariant_of, pronounced_of in Hk, Hv.
  apply result_bind_Ok in Hk as (? & _ & (n & _ & [-> ?]%chr_Ok)%result_bind_Ok).
  apply result_bind_Ok in Hv as (? & _ & (m & _ & [-> ?]%chr_Ok)%result_bind_Ok).
  by exists n, m.
Qed.

Lemma fontVariants_single_characters_witness :
  ∃ n m, [8450%N] = [n] ∧ lit "C" = [m] ∧ (n ≤ 1114111)%N ∧ (m ≤ 1114111)%N.
Proof.
  assert (fontVariantsDict hex_value no_normalize [capital_C; double_struck_C] =
          Ok (setitem (SymbolsDictionary_init (Some (lit "literal")))
                [8450%N] (lit "C"))) as Hd by (vm_compute; reflexivity).
  exact (fontVariants_single_characters _ _ _ _ [8450%N] (lit "C") Hd
           (list_elem_of_here _ _)).
Defined.

(** X9. A table whose records have six fields or more and never the
    tag gives the empty dictionary, which renders to the header alone.
    A record with fewer than six fields, an empty line for one, stops
    the loop with [IndexError], whatever follows it. *)
Theorem font_table_edges (int16 : str → result N)
    (utf8_normalize : str → result str) :
  (∀ uDataCSV,
     Forall (λ row, 6 ≤ length row ∧ font_tagged row = false) uDataCSV →
     fontVariantsDict int16 utf8_normalize uDataCSV =
       Ok (SymbolsDictionary_init (Some (lit "literal"))) ∧
     __str__ (SymbolsDictionary_init (Some (lit "literal"))) = header) ∧
  (∀ uDataCSV row rest d,
     fontVariantsDict int16 utf8_normalize uDataCSV = Ok d →
     length row < 6 →
     fontVariantsDict int16 utf8_normalize (uDataCSV ++ row :: rest)
     = Raise IndexError).
Proof.
  split.
  - intros uDataCSV Hrows. split; [|done]. unfold fontVariantsDict.
    generalize (SymbolsDictionary_init (Some (lit "literal"))).
    induction Hrows as [|row rows [Hlen Htag] _ IH]; intros d; [done|].
    cbn [foldM].
    assert (fontVariant_step int16 utf8_normalize d row = Ok d) as ->; [|apply IH].
    unfold fontVariant_step, font_tagged, index in *.
    destruct (row !! 5) as [field5|] eqn:E5.
    + cbn. by rewrite Htag.
    + apply lookup_ge_None in E5. lia.
  - intros uDataCSV row rest d Hd Hlen. unfold fontVariantsDict in *.
    rewrite foldM_app, Hd. cbn.
    unfold fontVariant_step, index.
    by rewrite (proj2 (lookup_ge_None row 5)) by lia.
Qed.

Lemma font_table_edges_witness :
  fontVariantsDict hex_value no_normalize [capital_C]
    = Ok (SymbolsDictionary_init (Some (lit "literal"))) ∧
  fontVariantsDict hex_value no_normalize ([capital_C] ++ [] :: [double_struck_C])
    = Raise IndexError.
Proof.
  split.
  - apply (proj1 (font_table_edges hex_value no_normalize) [capital_C]).
    constructor; [split; [vm_compute; lia|reflexivity]|constructor].
  - apply (proj2 (font_table_edges hex_value no_normalize) [capital_C] []
             [double_struck_C] (SymbolsDictionary_init (Some (lit "literal"))));
      [reflexivity|cbn; lia].
Defined.

(** ** Statements, with the value they return *)

Section Hoare.
Context (R : state → state → Prop).
Context (R_refl : ∀ st, R st st).
Context (R_trans : ∀ st1 st2 st3, R st1 st2 → R st2 st3 → R st1 st3).

Lemma hoare_ret {A : Type} (Q : A → Prop) (a : A) : Q a → hoare R Q (ret a).
Proof using R_refl. intros Ha st. split; [apply R_refl|]. by intros ? [= <-]. Qed.

Lemma hoare_raise {A : Type} (Q : A → Prop) (e : exn) : hoare R Q (raise e).
Proof using R_refl. intros st. split; [apply R_refl|done]. Qed.

Lemma hoare_lift {A : Type} (Q : A → Prop) (r : result A) :
  (∀ a, r = Ok a → Q a) → hoare R Q (lift r).
Proof using R_refl. intros Hr st. split; [apply R_refl|apply Hr]. Qed.

Lemma hoare_unchanged {A : Type} (m : M A) :
  (∀ st, (m st).2 = st) → hoare R (λ _, True) m.
Proof using R_refl. intros Hm st. rewrite Hm. split; [apply R_refl|done]. Qed.

Lemma hoare_step {A : Type} (m : M A) :
  (∀ st, R st (m st).2) → hoare R (λ _, True) m.
Proof. intros Hm st. split; [apply Hm|done]. Qed.

Lemma hoare_weaken {A : Type} (Q Q' : A → Prop) (m : M A) :
  (∀ a, Q a → Q' a) → hoare R Q m → hoare R Q' m.
Proof. intros HQ Hm st. destruct (Hm st) as [? Ha]. split; [done|]. auto. Qed.

Lemma hoare_bind {A B : Type} (Q : A → Prop) (Q' : B → Prop)
    (m : M A) (k : A → M B) :
  hoare R Q m → (∀ a, Q a → hoare R Q' (k a)) → hoare R Q' (bind m k).
Proof using R_trans.
  intros Hm Hk st. unfold bind. destruct (Hm st) as [HR HQ].
  destruct (m st) as [[a|e] st1]; cbn [fst snd] in *; [|done].
  destruct (Hk a (HQ a eq_refl) st1) as [HR' HQ'].
  split; [by eapply R_trans|done].
Qed.

Lemma hoare_for {A : Type} (l : list A) (body : A → M unit) :
  (∀ x, x ∈ l → hoare R (λ _, True) (body x)) →
  hoare R (λ _, True) (for_ l body).
Proof using R_refl R_trans.
  induction l as [|x l IH]; intros Hbody; cbn [for_].
  - by apply hoare_ret.
  - eapply hoare_bind; [apply Hbody, list_elem_of_here|].
    intros _ _. apply IH. intros y Hy. by apply Hbody, list_elem_of_further.
Qed.
End Hoare.

(** ** The files a statement changes *)

Lemma put_file_setitem_list (p content : str) (l : list (str * str)) :
  put_file p content l = setitem_list p content l.
Proof. induction l as [|[p' c'] l IH]; cbn; [done|]. by rewrite IH. Qed.

Lemma read_file_put (t : tree) (p content q : str) (ds : list str) :
  read_file {| dirs := ds; files := put_file p content (files t) |} q =
  if bool_decide (q = p) then Some content else read_file t q.
Proof.
  unfold read_file. cbn [files]. rewrite put_file_setitem_list.
  apply getitem_setitem_list_decide.
Qed.

Section Touches.
Context (C : str → str → Prop).
Implicit Types (st : state).

Lemma touches_refl st : touches C st st.
Proof. intros p. by left. Qed.

Lemma touches_trans st1 st2 st3 :
  touches C st1 st2 → touches C st2 st3 → touches C st1 st3.
Proof.
  intros H12 H23 p. destruct (H23 p) as [->|?]; [apply H12|by right].
Qed.

Lemma touches_same_files st st' :
  files (cwd st') = files (cwd st) → touches C st st'.
Proof. intros H p. left. unfold read_file. by rewrite H. Qed.

Lemma touches_path_exists name : hoare (touches C) (λ _, True) (path_exists name).
Proof. apply hoare_unchanged; [apply touches_refl|done]. Qed.

Lemma touches_get_processedFiles :
  hoare (touches C) (λ _, True) get_processedFiles.
Proof. apply hoare_unchanged; [apply touches_refl|done]. Qed.

Lemma touches_processedFiles_append name :
  hoare (touches C) (λ _, True) (processedFiles_append name).
Proof. apply hoare_step. intros st. by apply touches_same_files. Qed.

Lemma touches_set_processedFiles names :
  hoare (touches C) (λ _, True) (set_processedFiles names).
Proof. apply hoare_step. intros st. by apply touches_same_files. Qed.

Lemma touches_os_mkdir name : hoare (touches C) (λ _, True) (os_mkdir name).
Proof.
  apply hoare_step. intros st. unfold os_mkdir.
  repeat case_match; by apply touches_same_files.
Qed.

Lemma touches_mkdir_if (ex : bool) name :
  hoare (touches C) (λ _, True) (if negb ex then os_mkdir name else ret ()).
Proof.
  destruct ex; cbn [negb]; [|apply touches_os_mkdir].
  by apply hoare_ret; [apply touches_refl|].
Qed.

Lemma touches_write_file dir name content :
  C (path_join dir name) content →
  hoare (touches C) (λ _, True) (write_file dir name content).
Proof.
  intros HC. apply hoare_step. intros st. unfold write_file.
  destruct (negb _); [apply touches_refl|].
  destruct (tree_isdir _ _); [apply touches_refl|].
  intros p. cbn [snd cwd]. rewrite read_file_put.
  case_bool_decide as E; [|by left]. subst p. right. eauto.
Qed.

Lemma touches_try_createCLDRAnnotationsDict w sources :
  hoare (touches C)
    (λ r, ∀ d, r = Some d → createCLDRAnnotationsDict w sources = Ok d)
    (try_createCLDRAnnotationsDict w sources).
Proof.
  intros st. unfold try_createCLDRAnnotationsDict, bind, log.
  destruct (createCLDRAnnotationsDict w sources) as [d|[]];
    cbn [ret raise fst snd]; (split; [by apply touches_same_files|]);
    try done.
  - by intros ? [= <-] ? [= <-].
  - by intros ? [= <-].
Qed.
End Touches.

Lemma touches_mono (C C' : str → str → Prop) (st st' : state) :
  (∀ p c, C p c → C' p c) → touches C st st' → touches C' st st'.
Proof.
  intros HC H p. destruct (H p) as [?|(c & ? & ?)]; [by left|right]. eauto.
Qed.

Lemma hoare_touches_mono {A : Type} (C C' : str → str → Prop) (Q : A → Prop)
    (m : M A) :
  (∀ p c, C p c → C' p c) → hoare (touches C) Q m → hoare (touches C') Q m.
Proof.
  intros HC Hm st. destruct (Hm st) as [? ?]. split; [|done].
  by eapply touches_mono.
Qed.

(** ** The files of the emoji step *)

Lemma insert_all_qualifier (ps : list (str * str)) (d : SymbolsDictionary) :
  symbolsQualifier (insert_all ps d) = symbolsQualifier d.
Proof.
  revert d. induction ps as [|e ps IH]; intros d; [done|].
  cbn [insert_all fold_left]. fold (insert_all ps). by rewrite IH.
Qed.

Lemma createCLDRAnnotationsDict_shape (w : cldr) (sources : list path)
    (d : SymbolsDictionary) :
  createCLDRAnnotationsDict w sources = Ok d →
  items d ≠ [] ∧ symbolsQualifier d = None.
Proof.
  intros (pss & _ & -> & Hne)%createCLDRAnnotationsDict_Ok. split.
  - intros [? _]%insert_all_items_nil. done.
  - apply insert_all_qualifier.
Qed.

Lemma touches_scan_body (w : cldr) (CLDRFile : str) :
  hoare (touches emoji_file) (λ _, True) (scan_body w CLDRFile).
Proof.
  pose proof (touches_refl emoji_file) as Hrefl.
  pose proof (touches_trans emoji_file) as Htrans.
  unfold scan_body.
  eapply hoare_bind; [done|apply touches_get_processedFiles|].
  intros processed _. case_bool_decide; [by apply hoare_ret|].
  eapply hoare_bind; [done|apply touches_path_exists|]. intros ex _.
  eapply hoare_bind; [done|apply touches_mkdir_if|]. intros _ _.
  eapply hoare_bind; [done|apply touches_try_createCLDRAnnotationsDict|].
  intros [emojiDic|] Hd; [|by apply hoare_ret].
  destruct (createCLDRAnnotationsDict_shape _ _ _ (Hd _ eq_refl)) as [Hne Hq].
  eapply hoare_bind; [done| |intros _ _; apply touches_processedFiles_append].
  apply touches_write_file. by eexists _, emojiDic.
Qed.

Lemma touches_collect_sources (C : str → str → Prop) (w : cldr)
    (listed : list str) :
  hoare (touches C) (λ sources, sources = exception_sources w listed)
    (collect_sources w listed).
Proof.
  intros st. rewrite collect_sources_spec. cbn [fst snd]. split.
  - by apply touches_same_files.
  - by intros ? [= <-].
Qed.

Lemma touches_exception_body (w : cldr) (entry : str * list str) :
  hoare (touches emoji_file) (λ _, True) (exception_body w entry).
Proof.
  pose proof (touches_refl emoji_file) as Hrefl.
  pose proof (touches_trans emoji_file) as Htrans.
  destruct entry as [lang listed]. unfold exception_body.
  eapply hoare_bind; [done|apply touches_path_exists|]. intros ex _.
  eapply hoare_bind; [done|apply touches_mkdir_if|]. intros _ _.
  eapply hoare_bind; [done|apply touches_collect_sources|]. intros sources _.
  eapply hoare_bind; [done|apply touches_try_createCLDRAnnotationsDict|].
  intros [emojiDic|] Hd; [|by apply hoare_ret].
  destruct (createCLDRAnnotationsDict_shape _ _ _ (Hd _ eq_refl)) as [Hne Hq].
  apply touches_write_file. by eexists _, emojiDic.
Qed.

Lemma touches_emoji_phases (w : cldr) :
  hoare (touches emoji_file) (λ _, True) (exceptions_phase w ;;; generic_scan w).
Proof.
  pose proof (touches_refl emoji_file) as Hrefl.
  pose proof (touches_trans emoji_file) as Htrans.
  eapply hoare_bind; [done| |intros _ _].
  - apply hoare_for; [done..|]. intros x _. apply touches_exception_body.
  - apply hoare_for; [done..|]. intros x _. apply touches_scan_body.
Qed.

(** X10. Whatever the CLDR tree and however the emoji step ends, every
    file of the working directory is as it was before the step, or is
    some [lang/emojis.dic] that holds the banner followed by the
    rendering of a dictionary with at least one entry and no qualifier.
    So no file of another name is changed, and no emojis.dic is written
    without entries. *)
Theorem emoji_step_files (w : cldr) (t : tree) (p : str) :
  read_file (cwd (emoji_step w t).2) p = read_file t p ∨
  ∃ lang d,
    p = path_join lang (lit "emojis.dic") ∧
    read_file (cwd (emoji_step w t).2) p = Some (docHeader ++ __str__ d) ∧
    items d ≠ [] ∧ symbolsQualifier d = None.
Proof.
  destruct (touches_emoji_phases w (initial_state t)) as [H _].
  destruct (H p) as [?|(c & Hc & lang & d & -> & -> & ? & ?)]; [by left|right].
  by exists lang, d.
Qed.

(** ** The NVDA dictionaries *)

Section Nvda.
Context (NVDALocale : list (str * nvda_entry)).
Implicit Types (st : state) (item : str * nvda_entry).

Lemma touches_nvda_body item :
  item ∈ NVDALocale →
  hoare (touches (nvda_file NVDALocale)) (λ _, True) (nvda_body item).
Proof.
  pose proof (touches_refl (nvda_file NVDALocale)) as Hrefl.
  pose proof (touches_trans (nvda_file NVDALocale)) as Htrans.
  destruct item as [NVDALang [|[symbols_dic|]]]; intros Hin; cbn [nvda_body];
    try by apply hoare_ret.
  eapply hoare_bind; [done|apply touches_path_exists|]. intros ex _.
  eapply hoare_bind; [done|apply touches_mkdir_if|]. intros _ _.
  eapply (hoare_bind _ Htrans (λ NVDADic, symbols_dic = Ok NVDADic));
    [by apply hoare_lift|].
  intros NVDADic ->. apply touches_write_file. by exists NVDALang, NVDADic.
Qed.

Lemma makes_only_refl D st : makes_only D st st.
Proof. intros name ?. by left. Qed.

Lemma makes_only_trans D st1 st2 st3 :
  makes_only D st1 st2 → makes_only D st2 st3 → makes_only D st1 st3.
Proof. intros H12 H23 name [?|?]%H23; [by apply H12|by right]. Qed.

Lemma makes_only_same_dirs D st st2 :
  dirs (cwd st2) = dirs (cwd st) → makes_only D st st2.
Proof. intros H name. rewrite H. by left. Qed.

Lemma makes_only_write_file D dir name content :
  hoare (makes_only D) (λ _, True) (write_file dir name content).
Proof.
  apply hoare_step. intros st. unfold write_file.
  repeat case_match; by apply makes_only_same_dirs.
Qed.

Lemma makes_only_mkdir_if (D : str → Prop) (ex : bool) name :
  D name → hoare (makes_only D) (λ _, True) (if negb ex then os_mkdir name else ret ()).
Proof.
  intros HD. destruct ex; cbn [negb].
  { apply hoare_ret; [apply makes_only_refl|done]. }
  apply hoare_step. intros st. unfold os_mkdir.
  repeat case_match; try apply makes_only_refl.
  intros n. cbn [snd cwd dirs].
  intros [?| ->%list_elem_of_singleton]%elem_of_app; [by left|by right].
Qed.

Lemma makes_only_nvda_body item :
  item ∈ NVDALocale →
  hoare (makes_only (λ name, ∃ symbols_dic,
                       (name, Directory (Some symbols_dic)) ∈ NVDALocale))
    (λ _, True) (nvda_body item).
Proof.
  set (D := λ name, ∃ symbols_dic,
                      (name, Directory (Some symbols_dic)) ∈ NVDALocale).
  pose proof (makes_only_refl D) as Hrefl.
  pose proof (makes_only_trans D) as Htrans.
  destruct item as [NVDALang [|[symbols_dic|]]]; intros Hin; cbn [nvda_body];
    try by apply hoare_ret.
  eapply hoare_bind; [done|by apply hoare_unchanged|]. intros ex _.
  eapply hoare_bind; [done|apply makes_only_mkdir_if; by exists symbols_dic|].
  intros _ _.
  eapply (hoare_bind _ Htrans (λ _, True)); [by apply hoare_lift|].
  intros NVDADic _. apply makes_only_write_file.
Qed.

(** X11. The loop over the NVDA locale directory makes a directory only
    for a name that is a directory with a [symbols.dic], and every file
    of the working directory is as it was or is the [symbols.dic] of
    such a name, holding the banner followed by the text read. A name
    that is not a directory, or has no [symbols.dic], changes nothing. *)
Theorem nvda_loop_files st :
  let st2 := (for_ NVDALocale nvda_body st).2 in
  (∀ p, read_file (cwd st2) p = read_file (cwd st) p ∨
        ∃ lang NVDADic,
          (lang, Directory (Some (Ok NVDADic))) ∈ NVDALocale ∧
          p = path_join lang (lit "symbols.dic") ∧
          read_file (cwd st2) p = Some (docHeader ++ NVDADic)) ∧
  (∀ name, name ∈ dirs (cwd st2) →
           name ∈ dirs (cwd st) ∨
           ∃ symbols_dic, (name, Directory (Some symbols_dic)) ∈ NVDALocale) ∧
  (∀ name, nvda_body (name, NotDirectory) st = (Ok (), st) ∧
           nvda_body (name, Directory None) st = (Ok (), st)).
Proof.
  cbn zeta. split; [|split; [|done]].
  - pose proof (hoare_for (touches (nvda_file NVDALocale))
                  (touches_refl _) (touches_trans _) NVDALocale nvda_body
                  touches_nvda_body st) as [H _].
    intros p. destruct (H p) as [?|(c & Hc & lang & dic & ? & -> & ->)];
      [by left|right]. by exists lang, dic.
  - apply (hoare_for _ (makes_only_refl _) (makes_only_trans _) NVDALocale
             nvda_body makes_only_nvda_body st).
Qed.
End Nvda.

(** ** The copy of the English dictionary *)

Lemma tree_isdir_named (t : tree) (p : str) :
  p ∉ [lit "."; lit ".."] → tree_isdir t p = bool_decide (p ∈ dirs t).
Proof. intros Hp. unfold tree_isdir. by rewrite bool_decide_eq_false_2. Qed.

Lemma write_file_Ok (dir name content : str) (st st2 : state) :
  write_file dir name content st = (Ok (), st2) →
  dirs (cwd st2) = dirs (cwd st) ∧
  ∀ q, read_file (cwd st2) q =
       if bool_decide (q = path_join dir name) then Some content
       else read_file (cwd st) q.
Proof.
  unfold write_file. destruct (negb _); [done|].
  destruct (tree_isdir _ _); [done|]. intros [= <-]. cbn [cwd dirs].
  split; [done|]. intros q. apply read_file_put.
Qed.

(** What a copy that completes has done. *)
Lemma shutil_copy_Ok (src_dir src_name dst_dir dst_name : str)
    (st st2 : state) :
  shutil_copy src_dir src_name dst_dir dst_name st = (Ok (), st2) →
  let src := path_join src_dir src_name in
  let dst := path_join dst_dir dst_name in
  let target := if tree_isdir (cwd st) dst
                then path_join dst src_name else dst in
  ∃ content,
    read_file (cwd st) src = Some content ∧
    read_file (cwd st2) src = Some content ∧
    read_file (cwd st2) target = Some content ∧
    ∀ q, q ≠ target → read_file (cwd st2) q = read_file (cwd st) q.
Proof.
  cbn zeta. unfold shutil_copy.
  destruct (read_file (cwd st) (path_join src_dir src_name)) as [content|] eqn:Hsrc;
    [|done].
  destruct (tree_isdir (cwd st) (path_join dst_dir dst_name)).
  - case_bool_decide as Hsame; [done|].
    intros [_ Hread]%write_file_Ok. exists content. split; [done|].
    rewrite !Hread. rewrite bool_decide_eq_false_2 by done.
    rewrite bool_decide_eq_true_2 by done. repeat split; [done|].
    intros q Hq. by rewrite Hread, bool_decide_eq_false_2.
  - case_bool_decide as Hsame; [done|].
    intros [_ Hread]%write_file_Ok. exists content. split; [done|].
    rewrite !Hread. rewrite bool_decide_eq_false_2 by done.
    rewrite bool_decide_eq_true_2 by done. repeat split; [done|].
    intros q Hq. by rewrite Hread, bool_decide_eq_false_2.
Qed.

(** X12. When the loop of the NVDA step leaves no file
    [en/symbols.dic], the step ends with [OSError] after the loop: a
    missing English dictionary stops the script. When the step
    completes, [en/symbols.dic] is as the loop left it and its text has
    been copied: onto [base/symbols.dic] when that is not a directory,
    and into it, as [base/symbols.dic/symbols.dic], when it is one. The
    copy changes no other file. *)
Theorem nvda_step_copy (NVDALocale : list (str * nvda_entry)) (st st1 : state) :
  for_ NVDALocale nvda_body st = (Ok (), st1) →
  (read_file (cwd st1) (lit "en/symbols.dic") = None →
   nvda_step NVDALocale st = (Raise OSError, st1)) ∧
  (∀ st2, nvda_step NVDALocale st = (Ok (), st2) →
          ∃ content target,
            (lit "base/symbols.dic" ∉ dirs (cwd st1) →
             target = lit "base/symbols.dic") ∧
            (lit "base/symbols.dic" ∈ dirs (cwd st1) →
             target = lit "base/symbols.dic/symbols.dic") ∧
            read_file (cwd st1) (lit "en/symbols.dic") = Some content ∧
            read_file (cwd st2) (lit "en/symbols.dic") = Some content ∧
            read_file (cwd st2) target = Some content ∧
            ∀ q, q ≠ target →
                 read_file (cwd st2) q = read_file (cwd st1) q).
Proof.
  intros Hloop.
  assert (path_join (lit "en") (lit "symbols.dic") = lit "en/symbols.dic")
    as Hen by (vm_compute; reflexivity).
  assert (path_join (lit "base") (lit "symbols.dic") = lit "base/symbols.dic")
    as Hbase by (vm_compute; reflexivity).
  assert (path_join (lit "base/symbols.dic") (lit "symbols.dic")
          = lit "base/symbols.dic/symbols.dic")
    as Hinto by (vm_compute; reflexivity).
  assert (lit "base/symbols.dic" ∉ [lit "."; lit ".."]) as Hname.
  { intros Hin. apply list_elem_of_In in Hin. vm_compute in Hin.
    repeat (destruct Hin as [Hin|Hin]; [discriminate Hin|]). exact Hin. }
  unfold nvda_step, bind. rewrite Hloop. split.
  - intros Hnone. unfold shutil_copy. by rewrite Hen, Hnone.
  - intros st2 Hcopy.
    apply shutil_copy_Ok in Hcopy. cbn zeta in Hcopy.
    rewrite Hen, Hbase, Hinto, (tree_isdir_named _ _ Hname) in Hcopy.
    destruct Hcopy as (content & H1 & H2 & H3 & H4).
    exists content.
    case_bool_decide as Hdir.
    + exists (lit "base/symbols.dic/symbols.dic"). by repeat split.
    + exists (lit "base/symbols.dic"). by repeat split.
Qed.

Lemma nvda_step_copy_witness :
  ∃ content,
    read_file (cwd (nvda_step nvda_sample (start base_tree)).2)
      (lit "en/symbols.dic") = Some content ∧
    read_file (cwd (nvda_step nvda_sample (start base_tree)).2)
      (lit "base/symbols.dic") = Some content.
Proof.
  assert (for_ nvda_sample nvda_body (start base_tree) =
          (Ok (), (for_ nvda_sample nvda_body (start base_tree)).2)) as Hloop
    by (vm_compute; reflexivity).
  assert (nvda_step nvda_sample (start base_tree) =
          (Ok (), (nvda_step nvda_sample (start base_tree)).2)) as Hstep
    by (vm_compute; reflexivity).
  assert (lit "base/symbols.dic"
            ∉ dirs (cwd (for_ nvda_sample nvda_body (start base_tree)).2)) as Hdir.
  { intros Hin. apply list_elem_of_In in Hin. vm_compute in Hin.
    repeat (destruct Hin as [Hin|Hin]; [discriminate Hin|]). exact Hin. }
  destruct (proj2 (nvda_step_copy nvda_sample _ _ Hloop) _ Hstep)
    as (content & target & Honto & _ & _ & H1 & H2 & _).
  exists content. split; [exact H1|]. by rewrite <- (Honto Hdir).
Defined.

(** ** The script as a whole *)

Lemma touches_shutil_copy (C : str → str → Prop)
    (src_dir src_name dst_dir dst_name : str) :
  (∀ dir c, C (path_join dir src_name) c) →
  (∀ c, C (path_join dst_dir dst_name) c) →
  hoare (touches C) (λ _, True)
    (shutil_copy src_dir src_name dst_dir dst_name).
Proof.
  intros Hin Honto. apply hoare_step. intros st. unfold shutil_copy.
  destruct (read_file _ _) as [content|]; [|apply touches_refl].
  destruct (tree_isdir _ _); (case_bool_decide; [apply touches_refl|]).
  - by apply (touches_write_file C _ _ content (Hin _ _) st).
  - by apply (touches_write_file C _ _ content (Honto _) st).
Qed.

Lemma touches_main (int16 : str → result N) (utf8_normalize : str → result str)
    (uDataCSV : list (list str)) (NVDALocale : list (str * nvda_entry))
    (w : cldr) :
  hoare (touches script_file) (λ _, True)
    (main int16 utf8_normalize uDataCSV NVDALocale w).
Proof.
  pose proof (touches_refl script_file) as Hrefl.
  pose proof (touches_trans script_file) as Htrans.
  assert (∀ dir c, script_file (path_join dir (lit "font-variants.dic")) c) as Hfont.
  { intros dir c. exists dir, (lit "font-variants.dic"). split; [done|].
    apply list_elem_of_here. }
  assert (∀ dir c, script_file (path_join dir (lit "symbols.dic")) c) as Hsym.
  { intros dir c. exists dir, (lit "symbols.dic"). split; [done|].
    apply list_elem_of_further, list_elem_of_here. }
  assert (∀ dir c, script_file (path_join dir (lit "emojis.dic")) c) as Hemo.
  { intros dir c. exists dir, (lit "emojis.dic"). split; [done|].
    do 2 apply list_elem_of_further. apply list_elem_of_here. }
  unfold main.
  eapply hoare_bind; [done| |intros _ _].
  { unfold font_step.
    eapply (hoare_bind _ Htrans (λ _, True)); [by apply hoare_lift|].
    intros d _. by apply touches_write_file. }
  eapply hoare_bind; [done| |intros _ _].
  { unfold nvda_step. eapply hoare_bind; [done| |intros _ _].
    - apply (hoare_touches_mono (nvda_file NVDALocale)).
      { intros p c (lang & dic & _ & -> & _). apply Hsym. }
      apply hoare_for; [apply touches_refl|apply touches_trans|].
      apply touches_nvda_body.
    - apply touches_shutil_copy; [done|]. intros c. apply Hsym. }
  eapply hoare_bind; [done|apply touches_set_processedFiles|intros _ _].
  apply (hoare_touches_mono emoji_file).
  { intros p c (lang & d & -> & _). apply Hemo. }
  apply touches_emoji_phases.
Qed.

(** X13. Whatever its inputs and however it ends, the script leaves
    every file of the working directory as it was, except files named
    [font-variants.dic], [symbols.dic] or [emojis.dic] in some
    directory. *)
Theorem main_files (int16 : str → result N) (utf8_normalize : str → result str)
    (uDataCSV : list (list str)) (NVDALocale : list (str * nvda_entry))
    (w : cldr) (st : state) (p : str) :
  (∀ dir name,
     name ∈ [lit "font-variants.dic"; lit "symbols.dic"; lit "emojis.dic"] →
     p ≠ path_join dir name) →
  read_file (cwd (main int16 utf8_normalize uDataCSV NVDALocale w st).2) p
  = read_file (cwd st) p.
Proof.
  intros Hp.
  destruct (touches_main int16 utf8_normalize uDataCSV NVDALocale w st) as [H _].
  destruct (H p) as [?|(c & _ & dir & name & -> & Hname)]; [done|].
  by destruct (Hp dir name Hname).
Qed.

(** X14. Nothing is written before the table of characters has been
    read to its end, and the script makes no directory [base]: when the
    table raises, or when [base] is not a directory, the script ends at
    its first statements with the state it started in. *)
Theorem main_needs_base (int16 : str → result N)
    (utf8_normalize : str → result str) (uDataCSV : list (list str))
    (NVDALocale : list (str * nvda_entry)) (w : cldr) (st : state) :
  (∀ e, fontVariantsDict int16 utf8_normalize uDataCSV = Raise e →
        main int16 utf8_normalize uDataCSV NVDALocale w st = (Raise e, st)) ∧
  (∀ d, fontVariantsDict int16 utf8_normalize uDataCSV = Ok d →
        lit "base" ∉ dirs (cwd st) →
        main int16 utf8_normalize uDataCSV NVDALocale w st = (Raise OSError, st)).
Proof.
  split.
  - intros e He. unfold main, font_step, bind, lift. by rewrite He.
  - intros d Hd Hbase. unfold main, font_step. unfold bind at 1.
    unfold bind at 1, lift. rewrite Hd. unfold write_file.
    rewrite tree_isdir_named, bool_decide_eq_false_2; [done..|].
    intros Hin. apply list_elem_of_In in Hin. vm_compute in Hin.
    repeat (destruct Hin as [Hin|Hin]; [discriminate Hin|]). exact Hin.
Qed.

Lemma startswith_app (p s : str) : startswith (p ++ s) p = true.
Proof.
  induction p as [|c p IH]; [by destruct s|].
  cbn. by rewrite bool_decide_eq_true_2.
Qed.

Lemma path_join_endswith (a b : str) : endswith (path_join a b) b = true.
Proof.
  assert (∀ x : str, endswith (x ++ b) b = true) as Happ.
  { intros x. unfold endswith. rewrite rev_app_distr. apply startswith_app. }
  unfold path_join. destruct (startswith b [SLASH]); [apply (Happ [])|].
  destruct (_ || _); [apply Happ|].
  rewrite app_assoc. apply Happ.
Qed.

Lemma main_files_witness :
  read_file
    (cwd (main hex_value no_normalize [capital_C; double_struck_C] nvda_sample
            sr_world (start base_tree)).2) (lit "README")
  = read_file (cwd (start base_tree)) (lit "README").
Proof.
  apply main_files. intros dir name Hname Heq.
  pose proof (path_join_endswith dir name) as Hend. rewrite <- Heq in Hend.
  apply list_elem_of_In in Hname. cbn in Hname.
  destruct Hname as [<-|[<-|[<-|[]]]]; vm_compute in Hend; discriminate Hend.
Defined.

Lemma main_needs_base_witness :
  main hex_value no_normalize [capital_C; double_struck_C] nvda_sample sr_world
    (start empty_tree)
  = (Raise OSError, start empty_tree).
Proof.
  eapply (proj2 (main_needs_base hex_value no_normalize
                   [capital_C; double_struck_C] nvda_sample sr_world
                   (start empty_tree))).
  - vm_compute. reflexivity.
  - apply not_elem_of_nil.
Defined.

(** ** What the generic scan records *)

Lemma recorded_written_refl (st : state) : recorded_written st st.
Proof. split; [done|]. intros f ?. by left. Qed.

Lemma recorded_written_trans (st1 st2 st3 : state) :
  recorded_written st1 st2 → recorded_written st2 st3 →
  recorded_written st1 st3.
Proof.
  intros [Hk12 H12] [Hk23 H23]. split; [by etrans|].
  intros f [[?|?]%H12|?]%H23; [by left| |by right].
  right. by eapply elem_of_prefix.
Qed.

Lemma recorded_written_same (st st2 : state) :
  processedFiles st2 = processedFiles st →
  files (cwd st2) = files (cwd st) → recorded_written st st2.
Proof. intros Hp Hf. split; [by rewrite Hf|]. rewrite Hp. by left. Qed.

Lemma put_file_key (p content : str) (l : list (str * str)) :
  p ∈ (put_file p content l).*1.
Proof.
  induction l as [|[p0 c0] l IH]; cbn.
  - apply list_elem_of_here.
  - case_bool_decide as E; cbn.
    + subst. apply list_elem_of_here.
    + by apply list_elem_of_further.
Qed.

Lemma recorded_written_scan_body (w : cldr) (f : str) :
  hoare recorded_written (λ _, True) (scan_body w f).
Proof.
  pose proof recorded_written_refl as Hrefl.
  pose proof recorded_written_trans as Htrans.
  unfold scan_body.
  eapply hoare_bind; [done|by apply hoare_unchanged|].
  intros processed _. case_bool_decide; [by apply hoare_ret|].
  eapply hoare_bind; [done|by apply hoare_unchanged|]. intros ex _.
  eapply hoare_bind; [done| |intros _ _].
  { apply hoare_step. intros st. destruct ex; cbn [negb]; [apply Hrefl|].
    unfold os_mkdir. repeat case_match; by apply recorded_written_same. }
  eapply hoare_bind; [done| |].
  { apply hoare_step. intros st.
    unfold try_createCLDRAnnotationsDict, bind, log.
    repeat case_match; by apply recorded_written_same. }
  intros [emojiDic|] _; [|by apply hoare_ret].
  apply hoare_step. intros st. unfold bind, write_file, processedFiles_append.
  fold (CLDRLang_of f).
  destruct (negb _); [apply Hrefl|]. destruct (tree_isdir _ _); [apply Hrefl|].
  cbn [snd processedFiles cwd files]. split; [apply put_file_keys|].
  intros f' [?| ->%list_elem_of_singleton]%elem_of_app; [by left|right].
  apply put_file_key.
Qed.

Lemma read_file_is_Some (t : tree) (p : str) :
  is_Some (read_file t p) ↔ p ∈ (files t).*1.
Proof.
  unfold read_file. induction (files t) as [|[p0 c0] l IH]; cbn.
  - split; [by intros [? ?]|by intros ?%elem_of_nil].
  - rewrite elem_of_cons. case_bool_decide as E.
    + split; [by left|eauto].
    + rewrite IH. split; [by right|]. intros [?|?]; [congruence|done].
Qed.

(** X15. The generic scan records a file only once its dictionary is
    written: after the scan, however it ends, every recorded name was
    recorded before the scan or has its [emojis.dic] in the directory
    named by its language code. *)
Theorem scan_records_written (w : cldr) (st : state) (f : str) :
  f ∈ processedFiles (generic_scan w st).2 →
  f ∈ processedFiles st ∨
  is_Some (read_file (cwd (generic_scan w st).2)
             (path_join (CLDRLang_of f) (lit "emojis.dic"))).
Proof.
  intros Hf.
  destruct (hoare_for recorded_written recorded_written_refl
              recorded_written_trans (os_listdir w annotationsDir) (scan_body w)
              (λ x _, recorded_written_scan_body w x) st) as [[_ H] _].
  destruct (H f Hf) as [?|?]; [by left|right]. by apply read_file_is_Some.
Qed.

Lemma scan_records_written_witness :
  is_Some (read_file (cwd (generic_scan derived_world (initial_state empty_tree)).2)
             (path_join (CLDRLang_of (lit "fr.xml")) (lit "emojis.dic"))).
Proof.
  assert (lit "fr.xml"
          ∈ processedFiles (generic_scan derived_world (initial_state empty_tree)).2)
    as Hin.
  { apply list_elem_of_In. vm_compute. do 4 right. by left. }
  destruct (scan_records_written derived_world (initial_state empty_tree)
              (lit "fr.xml") Hin) as [Hold|Hnew]; [|exact Hnew].
  exfalso. apply list_elem_of_In in Hold. vm_compute in Hold.
  repeat (destruct Hold as [Hold|Hold]; [discriminate Hold|]). exact Hold.
Defined.

(** ** A file of the generic scan that has entries *)

Lemma path_join_longer (a b : str) :
  b ≠ [] → startswith b [SLASH] = false → path_join a b ≠ a.
Proof.
  intros Hb Hs Heq. apply (f_equal length) in Heq. unfold path_join in Heq.
  rewrite Hs in Heq. destruct b; [done|].
  destruct (_ || _); rewrite ?length_app in Heq; cbn in Heq; lia.
Qed.

Lemma emojis_dic_named (lang : str) :
  path_join lang (lit "emojis.dic") ∉ [lit "."; lit ".."].
Proof.
  intros Hin. pose proof (path_join_endswith lang (lit "emojis.dic")) as Hend.
  apply list_elem_of_In in Hin. cbn [In] in Hin.
  destruct Hin as [Heq|[Heq|[]]]; rewrite <- Heq in Hend;
    vm_compute in Hend; discriminate Hend.
Qed.

(** What follows the directory in the body of the generic scan, for a
    file whose extraction gives a dictionary: the dictionary is written
    and the file recorded when the language code names a directory and
    [emojis.dic] is none in it, and the write raises otherwise. *)
Lemma scan_rest_Ok (w : cldr) (f : str) (st1 : state) (d : SymbolsDictionary) :
  tree_isdir (cwd st1) (CLDRLang_of f) = true →
  path_join (CLDRLang_of f) (lit "emojis.dic") ∉ dirs (cwd st1) →
  createCLDRAnnotationsDict w (scan_sources w f) = Ok d →
  ∃ st2,
    (r <- try_createCLDRAnnotationsDict w (scan_sources w f) ;;
     match r with
     | None => ret ()
     | Some emojiDic =>
         write_file (CLDRLang_of f) (lit "emojis.dic")
           (docHeader ++ __str__ emojiDic) ;;;
         processedFiles_append f
     end) st1 = (Ok (), st2) ∧
    read_file (cwd st2) (path_join (CLDRLang_of f) (lit "emojis.dic"))
      = Some (docHeader ++ __str__ d) ∧
    processedFiles st2 = processedFiles st1 ++ [f].
Proof.
  intros Hdir Hnd Hd.
  unfold try_createCLDRAnnotationsDict, bind, log. rewrite Hd.
  cbn [ret]. unfold write_file, processedFiles_append.
  cbn [cwd dirs files trace processedFiles].
  rewrite Hdir. cbn [negb].
  rewrite (tree_isdir_named _ _ (emojis_dic_named _)).
  rewrite (bool_decide_eq_false_2 _ Hnd).
  eexists. split; [reflexivity|]. cbn [cwd processedFiles dirs].
  by rewrite read_file_put, bool_decide_eq_true_2.
Qed.

Lemma scan_rest_Raise (w : cldr) (f : str) (st1 : state) (d : SymbolsDictionary) :
  tree_isdir (cwd st1) (CLDRLang_of f) = false
  ∨ path_join (CLDRLang_of f) (lit "emojis.dic") ∈ dirs (cwd st1) →
  createCLDRAnnotationsDict w (scan_sources w f) = Ok d →
  ∃ st2,
    (r <- try_createCLDRAnnotationsDict w (scan_sources w f) ;;
     match r with
     | None => ret ()
     | Some emojiDic =>
         write_file (CLDRLang_of f) (lit "emojis.dic")
           (docHeader ++ __str__ emojiDic) ;;;
         processedFiles_append f
     end) st1 = (Raise OSError, st2) ∧
    files (cwd st2) = files (cwd st1) ∧
    processedFiles st2 = processedFiles st1.
Proof.
  intros Hbad Hd.
  unfold try_createCLDRAnnotationsDict, bind, log. rewrite Hd.
  cbn [ret]. unfold write_file.
  cbn [cwd dirs files trace processedFiles].
  destruct (tree_isdir (cwd st1) (CLDRLang_of f)) eqn:Hdir; cbn [negb];
    [|by eexists].
  destruct Hbad as [?|Hin]; [done|].
  rewrite (tree_isdir_named _ _ (emojis_dic_named _)).
  rewrite (bool_decide_eq_true_2 _ Hin). by eexists.
Qed.

(** X16. For a file of the generic scan that is not recorded, whose
    language code is not empty and whose extraction gives a dictionary.
    The annotations are read, then the derived annotations of the same
    name when there are some: the dictionary holds for a key the
    description of the derived annotations when they have the key, and
    the one of the annotations otherwise. When the language code names a
    directory or nothing, and [emojis.dic] is no directory in it, the
    dictionary is written there under the banner and the file is
    recorded. When the language code names a regular file, or
    [emojis.dic] is a directory, the body raises [OSError] at the write:
    no file is written and the file is not recorded. *)
Theorem scan_derived_overrides (w : cldr) (f : str) (st : state)
    (d : SymbolsDictionary) (k v : str) :
  f ∉ processedFiles st → CLDRLang_of f ≠ [] →
  createCLDRAnnotationsDict w (scan_sources w f) = Ok d →
  let lang := CLDRLang_of f in
  let p := path_join lang (lit "emojis.dic") in
  (tree_isdir (cwd st) lang = true ∨ tree_exists (cwd st) lang = false →
   p ∉ dirs (cwd st) →
   ∃ st2, scan_body w f st = (Ok (), st2) ∧
          read_file (cwd st2) p = Some (docHeader ++ __str__ d) ∧
          processedFiles st2 = processedFiles st ++ [f]) ∧
  ((tree_isdir (cwd st) lang = false ∧ tree_exists (cwd st) lang = true)
   ∨ p ∈ dirs (cwd st) →
   ∃ st2, scan_body w f st = (Raise OSError, st2) ∧
          files (cwd st2) = files (cwd st) ∧
          processedFiles st2 = processedFiles st) ∧
  (source_exists w (annotationsDerivedDir, f) = true →
   source_value w (annotationsDerivedDir, f) k = Some v →
   getitem d k = Some v) ∧
  (source_exists w (annotationsDerivedDir, f) = false ∨
   source_value w (annotationsDerivedDir, f) k = None →
   source_value w (annotationsDir, f) k = Some v →
   getitem d k = Some v).
Proof.
  intros Hf Hlang Hd lang p.
  assert (tree_exists (cwd st) lang = false →
          os_mkdir lang st =
          (Ok (), {| processedFiles := processedFiles st;
                     cwd := {| dirs := dirs (cwd st) ++ [lang];
                               files := files (cwd st) |};
                     trace := trace st ++ [Mkdir lang] |})) as Hmk.
  { intros E. unfold os_mkdir. rewrite bool_decide_eq_false_2 by done.
    by rewrite E. }
  assert (p ≠ lang) as Hp by by apply path_join_longer.
  split; [|split; [|split]].
  - intros Hdir Hnd. rewrite scan_body_unprocessed by done.
    fold (scan_sources w f) lang.
    destruct (tree_exists (cwd st) lang) eqn:Hex; cbn [negb].
    + rewrite (bind_Ok _ _ st () st) by done.
      destruct Hdir as [Hdir|?]; [|done]. by apply scan_rest_Ok.
    + erewrite bind_Ok by by apply Hmk.
      destruct (scan_rest_Ok w f
                  {| processedFiles := processedFiles st;
                     cwd := {| dirs := dirs (cwd st) ++ [lang];
                               files := files (cwd st) |};
                     trace := trace st ++ [Mkdir lang] |} d)
        as (st2 & ? & ? & ?); [| |done|by exists st2].
      * apply tree_isdir_made. cbn [cwd dirs]. apply elem_of_app. right.
        apply list_elem_of_here.
      * cbn [cwd dirs]. rewrite not_elem_of_app. split; [done|].
        by intros ?%list_elem_of_singleton.
  - intros Hbad. rewrite scan_body_unprocessed by done.
    fold (scan_sources w f) lang.
    destruct (tree_exists (cwd st) lang) eqn:Hex; cbn [negb].
    + rewrite (bind_Ok _ _ st () st) by done. apply (scan_rest_Raise w f st d).
      * destruct Hbad as [[? _]|?]; [by left|by right].
      * done.
    + erewrite bind_Ok by by apply Hmk.
      destruct Hbad as [[_ ?]|Hin]; [done|].
      destruct (scan_rest_Raise w f
                  {| processedFiles := processedFiles st;
                     cwd := {| dirs := dirs (cwd st) ++ [lang];
                               files := files (cwd st) |};
                     trace := trace st ++ [Mkdir lang] |} d)
        as (st2 & ? & ? & ?); [|done|by exists st2].
      right. cbn [cwd dirs]. apply elem_of_app. by left.
  - intros Hex Hv. unfold scan_sources in Hd. rewrite Hex in Hd.
    by eapply (merge_last_wins w [(annotationsDir, f)] (annotationsDerivedDir, f) []).
  - intros Hno Hv. unfold scan_sources in Hd.
    destruct (source_exists w (annotationsDerivedDir, f)) eqn:Hex.
    + destruct Hno as [?|Hnone]; [done|].
      eapply (merge_last_wins w [] (annotationsDir, f) [(annotationsDerivedDir, f)]);
        [done..|]. by constructor.
    + by eapply (merge_last_wins w [] (annotationsDir, f) []).
Qed.

Lemma scan_derived_overrides_witness :
  ∃ d, createCLDRAnnotationsDict derived_world
         (scan_sources derived_world (lit "fr.xml")) = Ok d ∧
       getitem d grinning = Some (lit "sourire") ∧
       read_file
         (cwd (scan_body derived_world (lit "fr.xml")
                 (initial_state empty_tree)).2) (lit "fr/emojis.dic")
       = Some (docHeader ++ __str__ d) ∧
       (scan_body derived_world (lit "fr.xml")
          (initial_state {| dirs := []; files := [(lit "fr", lit "text")] |})).1
       = Raise OSError.
Proof.
  assert (lit "fr.xml" ∉ processedFiles (initial_state empty_tree)) as Hf.
  { intros Hin. apply list_elem_of_In in Hin. vm_compute in Hin.
    repeat (destruct Hin as [Hin|Hin]; [discriminate Hin|]). exact Hin. }
  assert (CLDRLang_of (lit "fr.xml") ≠ []) as Hlang by discriminate.
  assert (createCLDRAnnotationsDict derived_world
            (scan_sources derived_world (lit "fr.xml"))
          = Ok (setitem (SymbolsDictionary_init None) grinning (lit "sourire")))
    as Hd by (vm_compute; reflexivity).
  destruct (scan_derived_overrides derived_world (lit "fr.xml")
              (initial_state empty_tree) _ grinning (lit "sourire") Hf Hlang Hd)
    as (Hwritten & _ & Hderived & _).
  destruct (scan_derived_overrides derived_world (lit "fr.xml")
              (initial_state {| dirs := []; files := [(lit "fr", lit "text")] |})
              _ grinning (lit "sourire") Hf Hlang Hd)
    as (_ & Hraise & _).
  eexists. split; [exact Hd|]. split; [|split].
  - apply Hderived; reflexivity.
  - destruct Hwritten as (st2 & Hrun & Hread & _).
    + right. vm_compute; reflexivity.
    + apply not_elem_of_nil.
    + rewrite Hrun. exact Hread.
  - destruct Hraise as (st2 & Hrun & _).
    + left. split; vm_compute; reflexivity.
    + by rewrite Hrun.
Defined.

Lemma nvda_loop_files_witness :
  lit "en" ∈ dirs (cwd (for_ nvda_sample nvda_body (start base_tree)).2) ∧
  (lit "en" ∈ dirs (cwd (start base_tree)) ∨
   ∃ symbols_dic, (lit "en", Directory (Some symbols_dic)) ∈ nvda_sample).
Proof.
  assert (lit "en" ∈ dirs (cwd (for_ nvda_sample nvda_body (start base_tree)).2))
    as Hin.
  { apply list_elem_of_In. vm_compute. right. by left. }
  split; [exact Hin|].
  exact (proj1 (proj2 (nvda_loop_files nvda_sample (start base_tree))) _ Hin).
Defined.

(** ** Rendering and assignment, rendering and reading *)

(** X17. Rendering follows assignment: after the assignment of a new
    key the rendered text is the text before followed by the line of the
    new entry, so a dictionary can be rendered as it is filled. *)
Theorem render_after_setitem (d : SymbolsDictionary) (k v : str) :
  k ∉ keys d →
  __str__ (setitem d k v) =
  __str__ d ++ entry_text (symbolsQualifier d) (k, v) ++ [CR; LF].
Proof.
  intros Hk. rewrite !render_unfold. unfold setitem. cbn [items symbolsQualifier].
  rewrite setitem_list_fresh by done.
  rewrite fmap_app, concat_app. cbn [fmap list_fmap concat].
  by rewrite app_nil_r, <- !app_assoc.
Qed.

Lemma render_after_setitem_witness :
  __str__ literal_dict =
  __str__ (setitem (SymbolsDictionary_init (Some (lit "literal")))
             (lit "x") (lit "ex"))
    ++ entry_text (Some (lit "literal")) (lit "y", lit "why") ++ [CR; LF].
Proof.
  apply (render_after_setitem
           (setitem (SymbolsDictionary_init (Some (lit "literal")))
              (lit "x") (lit "ex")) (lit "y") (lit "why")).
  intros Hin. apply list_elem_of_In in Hin. vm_compute in Hin.
  destruct Hin as [Hin|Hin]; [discriminate Hin|exact Hin].
Defined.

Lemma parse_entry_text (q : option str) (p v : str) :
  plain p = true → plain v = true → plain_qualifier q = true →
  parse_entry (entry_text q (p, v)) = Some (p, v).
Proof.
  intros Hp Hv Hq. unfold parse_entry.
  destruct q as [[|c Q]|].
  - by rewrite fields_entry_text_3.
  - by rewrite fields_entry_text_4.
  - by rewrite fields_entry_text_3.
Qed.

(** X18. Nothing is lost in a rendered dictionary whose patterns,
    descriptions and qualifier hold no tab and no line break: reading
    the first two fields of every line after the header gives back the
    entries, in their order. Two such dictionaries with the same
    rendering have the same entries. *)
Theorem render_read_back (d : SymbolsDictionary) :
  plain_entries d = true → plain_qualifier (symbolsQualifier d) = true →
  parse_entry <$> entry_lines (__str__ d) = Some <$> items d ∧
  ∀ d', plain_entries d' = true →
        plain_qualifier (symbolsQualifier d') = true →
        __str__ d' = __str__ d → items d' = items d.
Proof.
  assert (∀ d, plain_entries d = true →
               plain_qualifier (symbolsQualifier d) = true →
               parse_entry <$> entry_lines (__str__ d) = Some <$> items d) as Hread.
  { clear d. intros d Hd Hq. rewrite rendered_lines_entries by done.
    rewrite <- list_fmap_compose. apply list_fmap_ext. intros i [p v] Hi.
    cbn. unfold plain_entries in Hd. rewrite forallb_forall in Hd.
    apply list_elem_of_lookup_2, list_elem_of_In, Hd, andb_prop in Hi as [??].
    by apply parse_entry_text. }
  intros Hd Hq. split; [by apply Hread|].
  intros d' Hd' Hq' Heq.
  pose proof (Hread d Hd Hq) as H1. pose proof (Hread d' Hd' Hq') as H2.
  rewrite Heq, H1 in H2. by apply (inj (fmap Some)) in H2.
Qed.

Lemma render_read_back_witness :
  parse_entry <$> entry_lines (__str__ literal_dict) = Some <$> items literal_dict.
Proof.
  exact (proj1 (render_read_back literal_dict eq_refl eq_refl)).
Defined.
